(** * corgi: the Swagger document generator ([src/swagger/index.ts])

  A shallow embedding of [deepOmit], [JoiToSwaggerSchema], [asJoiSchema],
  [SwaggerGenerator.generateJSON], [toSwaggerPath] and
  [routesToOperationId], with the properties of the generated document.

  JavaScript strings are modelled as [string] (sequences of 8-bit
  characters); the case conversions are the ASCII ones, which is what
  [toUpperCase] and [toLowerCase] do on the characters of HTTP method names
  and URL paths. *)

From Stdlib Require Import Bool Arith List ZArith Lia.
From Stdlib Require Import Strings.Ascii Strings.String Numbers.DecimalString.
Import ListNotations.

Open Scope bool_scope.
Open Scope string_scope.

(** ** JavaScript string primitives *)

Module JsString.

Definition code (c : ascii) : nat := nat_of_ascii c.

Definition between (lo hi : nat) (c : ascii) : bool :=
  Nat.leb lo (code c) && Nat.leb (code c) hi.

Definition isLower (c : ascii) : bool := between 97 122 c.
Definition isUpper (c : ascii) : bool := between 65 90 c.
Definition isDigit (c : ascii) : bool := between 48 57 c.

(** [\w] of a JavaScript regular expression: [[A-Za-z0-9_]]. *)
Definition isWordChar (c : ascii) : bool :=
  isLower c || isUpper c || isDigit c || Ascii.eqb c "_".

Definition upperChar (c : ascii) : ascii :=
  if isLower c then ascii_of_nat (code c - 32) else c.

Definition lowerChar (c : ascii) : ascii :=
  if isUpper c then ascii_of_nat (code c + 32) else c.

Fixpoint map (f : ascii -> ascii) (s : string) : string :=
  match s with
  | EmptyString => EmptyString
  | String c rest => String (f c) (map f rest)
  end.

(** [s.toLowerCase()] *)
Definition toLowerCase (s : string) : string := map lowerChar s.

(** [s.startsWith(":")], for a one-character prefix. *)
Definition startsWith (s : string) (c : ascii) : bool :=
  match s with
  | String d _ => Ascii.eqb d c
  | EmptyString => false
  end.

(** [s.slice(1)] *)
Definition slice1 (s : string) : string :=
  match s with
  | String _ rest => rest
  | EmptyString => EmptyString
  end.

(** [s.split(sep)] for a one-character separator: the empty string splits
    into the one-element array [[""]]. *)
Fixpoint split (sep : ascii) (s : string) : list string :=
  match s with
  | EmptyString => [EmptyString]
  | String c rest =>
      if Ascii.eqb c sep then EmptyString :: split sep rest
      else match split sep rest with
           | seg :: segs => String c seg :: segs
           | [] => [String c EmptyString]
           end
  end.

(** [parts.join("")] *)
Definition join (parts : list string) : string :=
  fold_right String.append EmptyString parts.

(** [_string.capitalize(str)] of underscore.string, called with one
    argument: [str.charAt(0).toUpperCase() + str.slice(1)]. *)
Definition capitalize (s : string) : string :=
  match s with
  | EmptyString => EmptyString
  | String c rest => String (upperChar c) rest
  end.

(** JavaScript truthiness of a string. *)
Definition truthy (s : string) : bool :=
  match s with EmptyString => false | String _ _ => true end.

End JsString.

(** ** Path syntax: [toSwaggerPath] and [routesToOperationId] *)

Inductive HttpMethod : Type :=
  GET | PUT | POST | PATCH | DELETE | OPTIONS | HEAD.

(** The string a value of the [HttpMethod] type is at run time. *)
Definition methodName (m : HttpMethod) : string :=
  match m with
  | GET => "GET" | PUT => "PUT" | POST => "POST" | PATCH => "PATCH"
  | DELETE => "DELETE" | OPTIONS => "OPTIONS" | HEAD => "HEAD"
  end.

Module PathRewrite.
Import JsString.

Definition isColon (c : ascii) : bool := Ascii.eqb c ":".

Definition startsWithWord (s : string) : bool :=
  match s with
  | String c _ => isWordChar c
  | EmptyString => false
  end.

(** [path.replace(/\:(\w+)/g, "{$1}")] as the scanner the global regular
    expression denotes: matches are found from left to right, each takes the
    longest run of word characters, and the search goes on after it.
    [outside] reads the text between matches: a colon followed by a word
    character opens a match and emits the opening brace, any other character
    is copied. [inside] reads the greedy [\w+] of the match: word characters
    are copied, and the first other character (or the end of the string)
    closes the brace and is read again from outside a match. *)
Fixpoint outside (s : string) : string :=
  match s with
  | EmptyString => EmptyString
  | String c rest =>
      if isColon c && startsWithWord rest
      then String "{" (inside rest)
      else String c (outside rest)
  end
with inside (s : string) : string :=
  match s with
  | EmptyString => "}"
  | String c rest =>
      if isWordChar c then String c (inside rest)
      else String "}"
             (if isColon c && startsWithWord rest
              then String "{" (inside rest)
              else String c (outside rest))
  end.

(** A string with no parameter marker: no colon is followed by a word
    character. *)
Fixpoint markerFree (s : string) : bool :=
  match s with
  | EmptyString => true
  | String c rest => negb (isColon c && startsWithWord rest) && markerFree rest
  end.

(** A non-empty run of word characters, the [name] of [:name]. *)
Fixpoint allWord (s : string) : bool :=
  match s with
  | EmptyString => true
  | String c rest => isWordChar c && allWord rest
  end.

End PathRewrite.

Definition toSwaggerPath (path : string) : string := PathRewrite.outside path.

Definition routesToOperationId (path : string) (method : HttpMethod) : string :=
  let operation :=
    JsString.join
      (List.map
         (fun c =>
            if JsString.startsWith c ":"
            then JsString.capitalize (JsString.slice1 c)
            else JsString.capitalize c)
         (JsString.split "/" path)) in
  JsString.capitalize (JsString.toLowerCase (methodName method)) ++ operation.

(** The derivation of an operation identifier in the words of the
    specification: the capitalized lowercase method, then the segments of
    the raw path between slashes, each without its leading parameter marker
    and capitalized, one after the other. *)
Definition stripMarker (segment : string) : string :=
  if JsString.startsWith segment ":" then JsString.slice1 segment else segment.

Definition derivedOperationId (method : HttpMethod) (rawPath : string) : string :=
  JsString.capitalize (JsString.toLowerCase (methodName method)) ++
  JsString.join
    (List.map (fun segment => JsString.capitalize (stripMarker segment))
              (JsString.split "/" rawPath)).

(** ** JavaScript values *)

(** The values schemas and parameter objects are made of. An object is the
    list of its own enumerable members in enumeration order; an array is the
    list of its elements. *)
#[local] Set Warnings "-register-all".

Inductive value : Type :=
| VUndefined
| VNull
| VBool (b : bool)
| VNum (n : Z)
| VStr (s : string)
| VArr (items : list value)
| VObj (fields : list (string * value)).

(** Association lists with the update of a JavaScript member assignment
    [obj[key] = v]: an existing member keeps its place, a new one goes last. *)
Section Assoc.
Context {K V : Type} (eqb : K -> K -> bool).

Fixpoint lookup (key : K) (l : list (K * V)) : option V :=
  match l with
  | [] => None
  | (k, v) :: rest => if eqb k key then Some v else lookup key rest
  end.

Fixpoint assign (key : K) (v : V) (l : list (K * V)) : list (K * V) :=
  match l with
  | [] => [(key, v)]
  | (k, x) :: rest =>
      if eqb k key then (k, v) :: rest else (k, x) :: assign key v rest
  end.

End Assoc.

Module Js.

(** [_.isObject(value)]: true of objects and arrays, false of primitives. *)
Definition isObject (v : value) : bool :=
  match v with
  | VArr _ | VObj _ => true
  | _ => false
  end.

(** The decimal numeral that is the property name of array index [i]. *)
Definition indexKey (i : nat) : string :=
  NilEmpty.string_of_uint (Nat.to_uint i).

Fixpoint indexed (i : nat) (items : list value) : list (string * value) :=
  match items with
  | [] => []
  | v :: rest => (indexKey i, v) :: indexed (S i) rest
  end.

Fixpoint chars (s : string) : list value :=
  match s with
  | EmptyString => []
  | String c rest => VStr (String c EmptyString) :: chars rest
  end.

(** The own enumerable members of a value, as [Object.keys] and
    [Object.assign] see them: the members of an object, the elements of an
    array and the characters of a string under their indices, nothing for
    the other primitives. *)
Definition ownFields (v : value) : list (string * value) :=
  match v with
  | VObj fields => fields
  | VArr items => indexed 0 items
  | VStr s => indexed 0 (chars s)
  | _ => []
  end.

(** [v[key]] for a name that is not an array index. *)
Definition getMember (v : value) (key : string) : value :=
  match v with
  | VObj fields =>
      match lookup String.eqb key fields with
      | Some x => x
      | None => VUndefined
      end
  | _ => VUndefined
  end.

(** [Object.assign(target, source)] on an object target. *)
Definition objectAssign (target : list (string * value)) (source : value)
  : list (string * value) :=
  fold_left (fun acc kv => assign String.eqb (fst kv) (snd kv) acc)
            (ownFields source) target.

(** The members every object literal inherits from [Object.prototype]; the
    [in] operator answers true for them on any object literal. *)
Definition objectPrototypeMembers : list string :=
  [ "constructor"; "__defineGetter__"; "__defineSetter__"; "hasOwnProperty";
    "__lookupGetter__"; "__lookupSetter__"; "isPrototypeOf";
    "propertyIsEnumerable"; "toString"; "valueOf"; "__proto__";
    "toLocaleString" ].

Definition mem (key : string) (keys : list string) : bool :=
  existsb (String.eqb key) keys.

End Js.

(** ** [deepOmit] *)

Section DeepOmit.
Variable keysToOmit : list string.

(** [key in keysToOmitIndex], where [keysToOmitIndex = _.keyBy(keysToOmit)]
    is an object literal whose own members are the strings of [keysToOmit]:
    [in] also finds the members inherited from [Object.prototype]. *)
Definition inKeysToOmitIndex (key : string) : bool :=
  Js.mem key keysToOmit || Js.mem key Js.objectPrototypeMembers.

(** [omitFromObject], the inner function: [_.transform] builds a new array
    from an array and a new object from anything else, calling the iteratee
    on every own member. The iteratee skips a member whose key is in the
    index and stores every other one, passed through [omitFromObject] again
    when [_.isObject] holds of it. Array indices are numerals: they are in
    the index only when [keysToOmit] lists a numeral, which neither call of
    this file does, so every element of an array is stored. *)
Fixpoint omitFromObject (objectToOmit : value) : value :=
  match objectToOmit with
  | VArr items =>
      VArr (List.map
              (fun v => if Js.isObject v then omitFromObject v else v)
              items)
  | VObj fields =>
      VObj ((fix each (l : list (string * value)) : list (string * value) :=
               match l with
               | [] => []
               | (key, v) :: rest =>
                   if inKeysToOmitIndex key then each rest
                   else (key, if Js.isObject v then omitFromObject v else v)
                          :: each rest
               end) fields)
  | VStr s =>
      VObj (List.filter (fun kv => negb (inKeysToOmitIndex (fst kv)))
                        (Js.indexed 0 (Js.chars s)))
  | _ => VObj []
  end.

End DeepOmit.

Definition deepOmit (obj : value) (keysToOmit : list string) : value :=
  omitFromObject keysToOmit obj.

(** The two halves of the iteratee, named to state the equations of
    [omitFromObject]: what it stores for a member it keeps, and what it keeps
    of the members of an object. *)
Definition omitMember (keysToOmit : list string) (v : value) : value :=
  if Js.isObject v then omitFromObject keysToOmit v else v.

Fixpoint omitFields (keysToOmit : list string) (l : list (string * value))
  : list (string * value) :=
  match l with
  | [] => []
  | (key, v) :: rest =>
      if inKeysToOmitIndex keysToOmit key then omitFields keysToOmit rest
      else (key, omitMember keysToOmit v) :: omitFields keysToOmit rest
  end.

Definition denylist : list string := ["additionalProperties"; "patterns"].

(** The pass both [JoiToSwaggerSchema] and the parameter list apply:
    [deepOmit(x, ["additionalProperties", "patterns"])]. *)
Definition sanitize (x : value) : value := deepOmit x denylist.

(** What the iteratee stores for a member whose key is kept. *)
Definition sanitizeMember (v : value) : value :=
  if Js.isObject v then sanitize v else v.

(** Paths into a value, to speak of the members at every depth. *)
Inductive Step : Type :=
| Member (key : string)
| Item (index : nat).

Fixpoint getPath (p : list Step) (v : value) : option value :=
  match p with
  | [] => Some v
  | Member key :: p' =>
      match v with
      | VObj fields =>
          match lookup String.eqb key fields with
          | Some x => getPath p' x
          | None => None
          end
      | _ => None
      end
  | Item i :: p' =>
      match v with
      | VArr items =>
          match nth_error items i with
          | Some x => getPath p' x
          | None => None
          end
      | _ => None
      end
  end.

Definition stepOmitted (s : Step) : bool :=
  match s with
  | Member key => Js.mem key denylist
  | Item _ => false
  end.

Definition stepInherited (s : Step) : bool :=
  match s with
  | Member key => Js.mem key Js.objectPrototypeMembers
  | Item _ => false
  end.

Definition keysOf (v : value) : list string :=
  match v with
  | VObj fields => List.map fst fields
  | _ => []
  end.

(** ** Schemas, routes and the request *)

(** What [schema.describe()] shows of a Joi schema, as far as the generator
    reads it: [flags], which may be missing, and its [presence]. *)
Record JoiFlags : Type := { presence : option string }.
Record JoiDescription : Type := { flags : option JoiFlags }.

(** Schema objects are compared by address ([===]): a response and a
    definitions entry hold references into a store of schema objects. *)
Definition ref : Type := nat.

Inductive SchemaObject (Joi : Type) : Type :=
| JoiObject (j : Joi)
| JsonObject (v : value).
Arguments JoiObject {Joi} j.
Arguments JsonObject {Joi} v.

(** [asJoiSchema]: the object itself when it has a truthy [isJoi] member,
    which the objects of the validation library have and JSON Schema
    objects, [isJoi] being no keyword of theirs, do not. *)
Definition asJoiSchema {Joi : Type} (object : SchemaObject Joi) : option Joi :=
  match object with
  | JoiObject j => Some j
  | JsonObject _ => None
  end.

Record ParameterDefinition (Joi : Type) : Type :=
  { param_in : string; param_def : Joi }.
Arguments param_in {Joi} _.
Arguments param_def {Joi} _.

Record Response : Type :=
  { response_desc : option string; response_schema : option ref }.

Record Route (Joi : Type) : Type :=
  { route_path : string;
    route_method : HttpMethod;
    route_description : option string;
    route_operationId : option string;
    route_params : list (string * ParameterDefinition Joi);
    route_responses : option (list (Z * Response)) }.
Arguments route_path {Joi} _.
Arguments route_method {Joi} _.
Arguments route_description {Joi} _.
Arguments route_operationId {Joi} _.
Arguments route_params {Joi} _.
Arguments route_responses {Joi} _.

(** A node of the route tree: a route, or a namespace with its path, its
    parameter schemas and its children. *)
Inductive RouteNode (Joi : Type) : Type :=
| NodeRoute (r : Route Joi)
| NodeNamespace (path : string) (params : list (string * Joi))
                (children : list (RouteNode Joi)).
Arguments NodeRoute {Joi} r.
Arguments NodeNamespace {Joi} path params children.

Definition Routes (Joi : Type) : Type := list (RouteNode Joi).

Definition nodePath {Joi : Type} (n : RouteNode Joi) : string :=
  match n with
  | NodeRoute r => route_path r
  | NodeNamespace path _ _ => path
  end.

(** [SwaggerRouteOptions]: the fields of [Swagger.Info] and the optional
    definitions table, its entries in [for ... in] order. *)
Record SwaggerRouteOptions : Type :=
  { info_title : string;
    info_version : string;
    info_description : option string;
    info_termsOfService : option string;
    info_contact : option value;
    info_license : option value;
    info_definitions : option (list (string * ref)) }.

(** [LambdaProxy.Event], as far as the generator reads it. *)
Record RequestContext : Type := { stage : string }.
Record Event : Type :=
  { headers : list (string * string);
    requestContext : option RequestContext }.

(** ** The generated document *)

Module Swagger.

Inductive Schema : Type :=
| SchemaUndefined
| SchemaRef (target : string)
| SchemaInline (v : value)
| SchemaShared (r : ref).

(** A response object; [resp_schema = None] is an object with no [schema]
    member, [Some SchemaUndefined] one whose [schema] member is
    [undefined]. *)
Record Response : Type :=
  { resp_description : string; resp_schema : option Schema }.

Record Operation : Type :=
  { op_description : option string;
    op_produces : list string;
    op_parameters : list value;
    op_responses : list (Z * Response);
    op_operationId : string }.

Record Info : Type :=
  { title : string;
    version : string;
    description : option string;
    termsOfService : option string;
    contact : option value;
    license : option value }.

(** [Swagger.Path]: the operations of one path under their method keys. *)
Definition Path : Type := list (string * Operation).

Record Spec : Type :=
  { swagger : string;
    info : Info;
    host : option string;
    basePath : string;
    schemes : list (option string);
    produces : list string;
    paths : list (string * Path);
    tags : list value;
    definitions : list (string * Schema) }.

End Swagger.

(** ** [SwaggerGenerator] *)

(** A [TypeError] thrown by the generator is [None]. *)
Notation "x <- e ;; k" :=
  (match e with Some x => k | None => None end)
  (at level 61, e at next level, right associativity).

Section Generator.
Context {Joi : Type}.
Variable JoiToJSONSchema : Joi -> value.
Variable describe : Joi -> JoiDescription.
Variable store : ref -> SchemaObject Joi.
Variable flattenRoutes : Routes Joi -> list (Routes Joi).

Definition JoiToSwaggerSchema (joiSchema : Joi) : value :=
  deepOmit (JoiToJSONSchema joiSchema) ["additionalProperties"; "patterns"].

Definition convertToReference (info : SwaggerRouteOptions) (schema : ref)
  : option Swagger.Schema :=
  match info_definitions info with
  | Some definitions =>
      (fix each (l : list (string * ref)) : option Swagger.Schema :=
         match l with
         | [] => None
         | (name, def) :: rest =>
             if Nat.eqb def schema
             then Some (Swagger.SchemaRef ("#/definitions/" ++ name))
             else each rest
         end) definitions
  | None => None
  end.

(** [((joiSchemaMetadata.flags || {}) as any).presence !== "optional"] *)
Definition presenceNotOptional (joiSchemaMetadata : JoiDescription) : bool :=
  let flags :=
    match flags joiSchemaMetadata with
    | Some f => f
    | None => {| presence := None |}
    end in
  match presence flags with
  | Some p => negb (String.eqb p "optional")
  | None => true
  end.

(** The callback of [_.map] over the parameters of a namespace: a namespace
    only supports path parameters. *)
Definition namespaceParameter (name : string) (schema : Joi) : value :=
  let joiSchema := JoiToSwaggerSchema schema in
  VObj [ ("in", VStr "path");
         ("name", VStr name);
         ("description", VStr "");
         ("type", Js.getMember joiSchema "type");
         ("required", VBool true) ].

(** The callback of [_.map] over the parameters of a route. *)
Definition routeParameter (name : string) (paramDef : ParameterDefinition Joi)
  : value :=
  let joiSchemaMetadata := describe (param_def paramDef) in
  if String.eqb (param_in paramDef) "body" then
    let joiSchema := JoiToSwaggerSchema (param_def paramDef) in
    VObj [ ("in", VStr (param_in paramDef));
           ("name", VStr name);
           ("description", VStr "");
           ("schema", joiSchema);
           ("required", VBool (presenceNotOptional joiSchemaMetadata)) ]
  else
    let joiSchema := JoiToSwaggerSchema (param_def paramDef) in
    let param :=
      Js.objectAssign
        [ ("in", VStr (param_in paramDef));
          ("name", VStr name);
          ("description", VStr "") ]
        joiSchema in
    if String.eqb (param_in paramDef) "path" then
      VObj (assign String.eqb "required" (VBool true) param)
    else (* query param *)
      VObj (assign String.eqb "required"
                   (VBool (presenceNotOptional joiSchemaMetadata))
                   param).

(** The parameters one node of the chain contributes, before the final
    [deepOmit] of each. *)
Definition nodeParameters (route : RouteNode Joi) : list value :=
  match route with
  | NodeNamespace _ params _ =>
      List.map (fun entry => namespaceParameter (fst entry) (snd entry)) params
  | NodeRoute r =>
      List.map (fun entry => routeParameter (fst entry) (snd entry))
               (route_params r)
  end.

Definition parametersOf (routes : Routes Joi) : list value :=
  List.map (fun param => deepOmit param ["additionalProperties"; "patterns"])
           (List.flat_map nodeParameters routes).

(** The [schema] of one declared response. *)
Definition responseSchema (info : SwaggerRouteOptions) (response : Response)
  : Swagger.Schema :=
  match response_schema response with
  | Some schema =>
      match convertToReference info schema with
      | Some reference => reference
      | None =>
          match asJoiSchema (store schema) with
          | Some joi => Swagger.SchemaInline (JoiToSwaggerSchema joi)
          | None => Swagger.SchemaShared schema
          end
      end
  | None => Swagger.SchemaUndefined
  end.

(** [a || b] on an optional string: [undefined] and [""] are falsy. *)
Definition orElse (a : option string) (b : string) : string :=
  match a with
  | Some s => if JsString.truthy s then s else b
  | None => b
  end.

(** The response map: the [reduce] over the declared responses, or the
    default. The entries are listed in the order they are first written. *)
Definition responsesOf (info : SwaggerRouteOptions) (endRoute : Route Joi)
  : list (Z * Swagger.Response) :=
  match route_responses endRoute with
  | Some responses =>
      fold_left
        (fun obj entry =>
           let statusCode := fst entry in
           let response := snd entry in
           assign Z.eqb statusCode
                  {| Swagger.resp_description := orElse (response_desc response) "";
                     Swagger.resp_schema := Some (responseSchema info response) |}
                  obj)
        responses []
  | None =>
      [ (200%Z, {| Swagger.resp_description := "Success";
                   Swagger.resp_schema := None |}) ]
  end.

(** The key an operation is stored under: the [switch] on the method. *)
Definition methodKey (m : HttpMethod) : string :=
  match m with
  | GET => "get" | PUT => "put" | POST => "post" | PATCH => "patch"
  | DELETE => "delete" | OPTIONS => "options" | HEAD => "head"
  end.

(** [routes.map(r => r.path).join("")] *)
Definition corgiPathOf (routes : Routes Joi) : string :=
  JsString.join (List.map nodePath routes).

(** [routes[routes.length - 1] as Route]: the generator goes on only when the
    last node of the chain is a route, as the cast says; on an empty chain
    the first read of [endRoute] throws. *)
Definition endRouteOf (routes : Routes Joi) : option (Route Joi) :=
  match nth_error routes (List.length routes - 1) with
  | Some (NodeRoute r) => Some r
  | _ => None
  end.

Definition operationOf (info : SwaggerRouteOptions) (routes : Routes Joi)
           (endRoute : Route Joi) : Swagger.Operation :=
  {| Swagger.op_description := route_description endRoute;
     Swagger.op_produces := ["application/json; charset=utf-8"];
     Swagger.op_parameters := parametersOf routes;
     Swagger.op_responses := responsesOf info endRoute;
     Swagger.op_operationId :=
       orElse (route_operationId endRoute)
              (routesToOperationId (corgiPathOf routes) (route_method endRoute)) |}.

(** [paths[swaggerPath][key] = operation], the path entry being there. The
    [paths] object is read as the map of its own members. That is what the
    code does for every rewritten path that is none of
    [Js.objectPrototypeMembers], as every path that starts with a slash is;
    for one that is, [paths[swaggerPath]] is the inherited member and the
    write lands on it, outside the document. The theorems on which entries
    the document holds assume [ownPathNames] of the chains. *)
Definition putOperation (swaggerPath key : string) (operation : Swagger.Operation)
           (paths : list (string * Swagger.Path)) : list (string * Swagger.Path) :=
  match lookup String.eqb swaggerPath paths with
  | Some entry =>
      assign String.eqb swaggerPath (assign String.eqb key operation entry) paths
  | None => paths
  end.

(** The body of the [forEach] over the flattened chains. The test
    [!paths[swaggerPath]] is read among the own members of [paths], as
    [putOperation] says. *)
Definition addChain (info : SwaggerRouteOptions)
           (paths : list (string * Swagger.Path)) (routes : Routes Joi)
  : option (list (string * Swagger.Path)) :=
  endRoute <- endRouteOf routes ;;
  let corgiPath := corgiPathOf routes in
  let swaggerPath := toSwaggerPath corgiPath in
  let paths :=
    match lookup String.eqb swaggerPath paths with
    | Some _ => paths
    | None => assign String.eqb swaggerPath [] paths
    end in
  let operation := operationOf info routes endRoute in
  Some (putOperation swaggerPath (methodKey (route_method endRoute)) operation paths).

Definition addChains (info : SwaggerRouteOptions) (chains : list (Routes Joi))
           (paths : list (string * Swagger.Path))
  : option (list (string * Swagger.Path)) :=
  fold_left (fun acc routes => paths <- acc ;; addChain info paths routes)
            chains (Some paths).

Definition generateJSON (info : SwaggerRouteOptions) (request : Event)
           (cascadedRoutes : Routes Joi) : option Swagger.Spec :=
  paths <- addChains info (flattenRoutes cascadedRoutes) [] ;;
  context <- requestContext request ;;
  Some
    {| Swagger.swagger := "2.0";
       Swagger.info :=
         {| Swagger.title := info_title info;
            Swagger.version := info_version info;
            Swagger.description := info_description info;
            Swagger.termsOfService := info_termsOfService info;
            Swagger.contact := info_contact info;
            Swagger.license := info_license info |};
       Swagger.host := lookup String.eqb "Host" (headers request);
       Swagger.basePath := "/" ++ stage context ++ "/";
       Swagger.schemes := [lookup String.eqb "X-Forwarded-Proto" (headers request)];
       Swagger.produces := ["application/json; charset=utf-8"];
       Swagger.paths := paths;
       Swagger.tags := [];
       Swagger.definitions :=
         List.map
           (fun entry =>
              (fst entry,
               match asJoiSchema (store (snd entry)) with
               | Some joi => Swagger.SchemaInline (JoiToSwaggerSchema joi)
               | None => Swagger.SchemaShared (snd entry)
               end))
           (match info_definitions info with
            | Some definitions => definitions
            | None => []
            end) |}.

End Generator.

(** ** The route-tree flattener *)

(** Modelled from the spec: [flattenRoutes] of the router module, which is
    not among the sources. One chain per terminal route reachable from the
    roots, each the sequence of nodes from a root to that route, in
    depth-first, pre-order traversal that keeps the order of the children. *)
Fixpoint flattenNode {Joi : Type} (n : RouteNode Joi) : list (Routes Joi) :=
  match n with
  | NodeRoute _ => [[n]]
  | NodeNamespace _ _ children =>
      List.map (cons n) (List.flat_map flattenNode children)
  end.

Definition flattenRoutes {Joi : Type} (routes : Routes Joi) : list (Routes Joi) :=
  List.flat_map flattenNode routes.

(** The number of terminal routes of a tree. *)
Fixpoint terminalRoutes {Joi : Type} (n : RouteNode Joi) : nat :=
  match n with
  | NodeRoute _ => 1
  | NodeNamespace _ _ children => list_sum (List.map terminalRoutes children)
  end.

(** The key a chain writes its operation under, and the same with the raw
    path in place of the rewritten one. *)
Definition chainKey {Joi : Type} (routes : Routes Joi)
  : option (string * HttpMethod) :=
  option_map
    (fun endRoute => (toSwaggerPath (corgiPathOf routes), route_method endRoute))
    (endRouteOf routes).

Definition rawKey {Joi : Type} (routes : Routes Joi)
  : option (string * HttpMethod) :=
  option_map (fun endRoute => (corgiPathOf routes, route_method endRoute))
             (endRouteOf routes).

(** [paths[swaggerPath][key]] for the key of a method. *)
Definition findOperation (swaggerPath : string) (method : HttpMethod)
           (paths : list (string * Swagger.Path)) : option Swagger.Operation :=
  match lookup String.eqb swaggerPath paths with
  | Some entry => lookup String.eqb (methodKey method) entry
  | None => None
  end.

(** No chain has a rewritten path that is the name of a member an object
    literal inherits: the chains for which reading [paths] among its own
    members is what the code does. *)
Definition ownPathNames {Joi : Type} (chains : list (Routes Joi)) : bool :=
  forallb
    (fun routes =>
       negb (Js.mem (toSwaggerPath (corgiPathOf routes)) Js.objectPrototypeMembers))
    chains.

(** The [(path, method)] operation entries of a document. *)
Definition operationEntries (paths : list (string * Swagger.Path))
  : list (string * string * Swagger.Operation) :=
  List.flat_map
    (fun entry => List.map (fun op => (fst entry, fst op, snd op)) (snd entry))
    paths.

(** ** Vocabulary for the further properties *)

(** No object inside [v], at any depth, has a member whose key is in the
    index of [keysToOmit]. *)
Fixpoint keyFree (keysToOmit : list string) (v : value) : bool :=
  match v with
  | VArr items => forallb (keyFree keysToOmit) items
  | VObj fields =>
      forallb (fun kv => negb (inKeysToOmitIndex keysToOmit (fst kv))
                         && keyFree keysToOmit (snd kv))
              fields
  | _ => true
  end.

(** The embedding of [deepOmit] stores every element of an array, which is
    what the code does when no key to omit is an array index, that is a
    string of digits. *)
Fixpoint allDigits (s : string) : bool :=
  match s with
  | EmptyString => true
  | String c rest => JsString.isDigit c && allDigits rest
  end.

Definition namesNoIndex (keysToOmit : list string) : bool :=
  forallb (fun key => String.eqb key "" || negb (allDigits key)) keysToOmit.

(** A schema slot of the document holds no key of the denylist; only the
    translated schemas are values the generator built. *)
Definition schemaKeyFree (s : Swagger.Schema) : bool :=
  match s with
  | Swagger.SchemaInline v => keyFree denylist v
  | _ => true
  end.

(** What the generator puts in the document for the schema object at an
    address: the translation of a Joi object, the object itself otherwise. *)
Definition translated {Joi : Type} (JoiToJSONSchema : Joi -> value)
           (store : ref -> SchemaObject Joi) (schema : ref) : Swagger.Schema :=
  match asJoiSchema (store schema) with
  | Some joi => Swagger.SchemaInline (JoiToSwaggerSchema JoiToJSONSchema joi)
  | None => Swagger.SchemaShared schema
  end.

(** The character [c] occurs in [s]. *)
Fixpoint occurs (c : ascii) (s : string) : bool :=
  match s with
  | EmptyString => false
  | String d rest => Ascii.eqb d c || occurs c rest
  end.

(** ** Sample inputs *)

Module Sample.

(** A small stand-in for the validation library: string schemas that are
    required or optional, and an object schema whose conversion carries the
    two keys the target dialect does not know. *)
Inductive Joi : Type :=
| JoiString (optional : bool)
| JoiObjectSchema.

Definition JoiToJSONSchema (j : Joi) : value :=
  match j with
  | JoiString _ => VObj [("type", VStr "string")]
  | JoiObjectSchema =>
      VObj [ ("type", VStr "object");
             ("properties", VObj [("id", VObj [("type", VStr "string")])]);
             ("additionalProperties", VBool false);
             ("patterns", VArr []) ]
  end.

Definition describe (j : Joi) : JoiDescription :=
  match j with
  | JoiString true => {| flags := Some {| presence := Some "optional" |} |}
  | JoiString false => {| flags := None |}
  | JoiObjectSchema => {| flags := Some {| presence := Some "required" |} |}
  end.

(** Two distinct schema objects with the same content at addresses 0 and 1,
    a Joi schema at 2. *)
Definition userSchema : value :=
  VObj [("type", VStr "object"); ("title", VStr "User")].

Definition store (r : ref) : SchemaObject Joi :=
  match r with
  | 0 => JsonObject userSchema
  | 1 => JsonObject userSchema
  | _ => JoiObject JoiObjectSchema
  end.

Definition options (definitions : option (list (string * ref)))
  : SwaggerRouteOptions :=
  {| info_title := "API"; info_version := "1.0.0";
     info_description := None; info_termsOfService := None;
     info_contact := None; info_license := None;
     info_definitions := definitions |}.

Definition request : Event :=
  {| headers := [("Host", "api.example.com"); ("X-Forwarded-Proto", "https")];
     requestContext := Some {| stage := "prod" |} |}.

Definition route (method : HttpMethod) (path : string)
           (operationId : option string) : Route Joi :=
  {| route_path := path; route_method := method;
     route_description := None; route_operationId := operationId;
     route_params := []; route_responses := None |}.

(** The tree of the end-to-end scenario: a root namespace with one route. *)
Definition pingTree : Routes Joi :=
  [NodeNamespace "" [] [NodeRoute (route GET "/ping" None)]].

(** A tree with a namespace parameter, route parameters in every location
    and declared responses. *)
Definition usersRoute : Route Joi :=
  {| route_path := "/posts"; route_method := POST;
     route_description := Some "Create a post";
     route_operationId := None;
     route_params :=
       [ ("slug", {| param_in := "path"; param_def := JoiString true |});
         ("page", {| param_in := "query"; param_def := JoiString true |});
         ("sort", {| param_in := "query"; param_def := JoiString false |});
         ("post", {| param_in := "body"; param_def := JoiObjectSchema |}) ];
     route_responses :=
       Some [ (200%Z, {| response_desc := Some "The user";
                         response_schema := Some 0 |});
              (201%Z, {| response_desc := None; response_schema := Some 1 |});
              (400%Z, {| response_desc := Some ""; response_schema := Some 2 |});
              (404%Z, {| response_desc := None; response_schema := None |}) ] |}.

Definition usersTree : Routes Joi :=
  [ NodeNamespace "/users/:id" [("id", JoiString false)]
      [ NodeRoute usersRoute;
        NodeRoute (route GET "/posts" (Some "listPosts")) ] ].

End Sample.

(** * Properties *)

(** ** Association lists *)

Section AssocFacts.
Context {K V : Type} (eqb : K -> K -> bool).
Hypothesis eqb_spec : forall a b, eqb a b = true <-> a = b.

Lemma eqb_refl_true : forall a, eqb a a = true.
Proof. intro a. apply eqb_spec. reflexivity. Qed.

Lemma eqb_false_neq : forall a b, eqb a b = false <-> a <> b.
Proof.
  intros a b. split.
  - intros H E. apply eqb_spec in E. congruence.
  - intro N. destruct (eqb a b) eqn:E; [|reflexivity].
    apply eqb_spec in E. contradiction.
Qed.

Lemma lookup_assign_same :
  forall key (v : V) l, lookup eqb key (assign eqb key v l) = Some v.
Proof.
  intros key v l. induction l as [|[k x] rest IH]; simpl.
  - now rewrite eqb_refl_true.
  - destruct (eqb k key) eqn:E; simpl; rewrite E; auto.
Qed.

Lemma lookup_assign_other :
  forall key key' (v : V) l,
    key <> key' ->
    lookup eqb key' (assign eqb key v l) = lookup eqb key' l.
Proof.
  intros key key' v l N. induction l as [|[k x] rest IH]; simpl.
  - apply eqb_false_neq in N. now rewrite N.
  - destruct (eqb k key) eqn:E; simpl.
    + apply eqb_spec in E. subst k.
      apply eqb_false_neq in N. now rewrite N.
    + destruct (eqb k key'); auto.
Qed.

Lemma lookup_None_not_In :
  forall key (l : list (K * V)),
    lookup eqb key l = None -> forall v, ~ In (key, v) l.
Proof.
  intros key l. induction l as [|[k x] rest IH]; simpl; intros H v HI.
  - exact HI.
  - destruct HI as [E|I].
    + inversion E; subst. now rewrite eqb_refl_true in H.
    + destruct (eqb k key); [discriminate|]. now apply (IH H v).
Qed.

Lemma lookup_Some_In :
  forall key (l : list (K * V)) v, lookup eqb key l = Some v -> In (key, v) l.
Proof.
  intros key l. induction l as [|[k x] rest IH]; simpl; intros v H.
  - discriminate.
  - destruct (eqb k key) eqn:E.
    + apply eqb_spec in E. inversion H; subst. now left.
    + right. now apply IH.
Qed.

Lemma assign_In_inv :
  forall key (v : V) l x, In x (assign eqb key v l) -> x = (key, v) \/ In x l.
Proof.
  intros key v l x. induction l as [|[k y] rest IH]; simpl.
  - intros [E|[]]. now left.
  - destruct (eqb k key) eqn:E; simpl.
    + apply eqb_spec in E. subst k. intros [H|H]; [now left|now right; right].
    + intros [H|H]; [now right; left|].
      destruct (IH H) as [H'|H']; [now left|now right; right].
Qed.

Lemma assign_absent :
  forall key (v : V) l,
    lookup eqb key l = None -> assign eqb key v l = (l ++ [(key, v)])%list.
Proof.
  intros key v l. induction l as [|[k y] rest IH]; simpl; intro H.
  - reflexivity.
  - destruct (eqb k key); [discriminate|]. now rewrite IH.
Qed.

Lemma lookup_split :
  forall key (l : list (K * V)) x,
    lookup eqb key l = Some x ->
    exists l1 l2, l = (l1 ++ (key, x) :: l2)%list /\ lookup eqb key l1 = None.
Proof.
  intros key l. induction l as [|[k y] rest IH]; simpl; intros x H.
  - discriminate.
  - destruct (eqb k key) eqn:E.
    + apply eqb_spec in E. inversion H; subst.
      exists [], rest. split; reflexivity.
    + destruct (IH x H) as (l1 & l2 & -> & N).
      exists ((k, y) :: l1), l2. split; [reflexivity|].
      simpl. now rewrite E.
Qed.

Lemma assign_split :
  forall key (v x : V) l1 l2,
    lookup eqb key l1 = None ->
    assign eqb key v (l1 ++ (key, x) :: l2) = (l1 ++ (key, v) :: l2)%list.
Proof.
  intros key v x l1 l2. induction l1 as [|[k y] rest IH]; simpl; intro H.
  - now rewrite eqb_refl_true.
  - destruct (eqb k key); [discriminate|]. now rewrite IH.
Qed.

Lemma assign_keys :
  forall key (v : V) l,
    List.map fst (assign eqb key v l) =
    match lookup eqb key l with
    | Some _ => List.map fst l
    | None => (List.map fst l ++ [key])%list
    end.
Proof.
  intros key v l. induction l as [|[k y] rest IH]; simpl; [reflexivity|].
  destruct (eqb k key) eqn:E; simpl; [reflexivity|].
  rewrite IH. now destruct (lookup eqb key rest).
Qed.

Lemma lookup_None_keys :
  forall key (l : list (K * V)),
    lookup eqb key l = None -> ~ In key (List.map fst l).
Proof.
  intros key l H I. apply in_map_iff in I. destruct I as ([k v] & E & I).
  simpl in E. subst k. exact (lookup_None_not_In key l H v I).
Qed.

Lemma assign_NoDup_keys :
  forall key (v : V) l,
    NoDup (List.map fst l) -> NoDup (List.map fst (assign eqb key v l)).
Proof.
  intros key v l N. rewrite assign_keys.
  destruct (lookup eqb key l) eqn:E; [exact N|].
  apply NoDup_app; [exact N|repeat constructor; intros []|].
  intros a Ia [<-|[]]. now apply (lookup_None_keys key l E).
Qed.

End AssocFacts.

Lemma string_eqb_spec : forall a b, String.eqb a b = true <-> a = b.
Proof. exact String.eqb_eq. Qed.

Lemma Z_eqb_spec : forall a b, Z.eqb a b = true <-> a = b.
Proof. exact Z.eqb_eq. Qed.

(** ** The path rewrite *)

Section PathRewriteFacts.
Import JsString PathRewrite.

Lemma colon_not_word : forall c, isColon c = true -> isWordChar c = false.
Proof.
  intros c H. apply Ascii.eqb_eq in H. subst c. reflexivity.
Qed.

Lemma word_not_colon : forall c, isWordChar c = true -> isColon c = false.
Proof.
  intros c H. destruct (isColon c) eqn:E; [|reflexivity].
  apply colon_not_word in E. congruence.
Qed.

Lemma inside_cons :
  forall c rest,
    inside (String c rest) =
    if isWordChar c then String c (inside rest)
    else String "}" (outside (String c rest)).
Proof. reflexivity. Qed.

Lemma startsWithWord_outside :
  forall s, startsWithWord (outside s) = startsWithWord s.
Proof.
  destruct s as [|c rest]; simpl; [reflexivity|].
  destruct (isColon c) eqn:C; simpl; [|reflexivity].
  destruct (startsWithWord rest); simpl; [|reflexivity].
  symmetry. now apply colon_not_word.
Qed.

Lemma markerFree_scanned :
  forall s, markerFree (outside s) = true /\ markerFree (inside s) = true.
Proof.
  induction s as [|c rest [IHo IHi]].
  - split; reflexivity.
  - assert (Ho : markerFree (outside (String c rest)) = true).
    { simpl. destruct (isColon c && startsWithWord rest) eqn:M.
      - simpl. exact IHi.
      - simpl. rewrite startsWithWord_outside, M. simpl. exact IHo. }
    split; [exact Ho|].
    rewrite inside_cons. destruct (isWordChar c) eqn:W.
    + simpl. rewrite (word_not_colon _ W). simpl. exact IHi.
    + change (markerFree (String "}" (outside (String c rest))))
        with (negb (isColon "}" && startsWithWord (outside (String c rest)))
              && markerFree (outside (String c rest))).
      rewrite Ho. reflexivity.
Qed.

Lemma outside_markerFree :
  forall s, markerFree s = true -> outside s = s.
Proof.
  induction s as [|c rest IH]; simpl; intro H; [reflexivity|].
  apply andb_true_iff in H. destruct H as [M F].
  apply negb_true_iff in M. rewrite M. now rewrite IH.
Qed.

Lemma startsWithWord_append :
  forall pre s,
    startsWithWord (pre ++ s) =
    match pre with EmptyString => startsWithWord s | _ => startsWithWord pre end.
Proof. destruct pre; reflexivity. Qed.

Lemma outside_append :
  forall pre s,
    markerFree pre = true -> startsWithWord s = false ->
    outside (pre ++ s) = pre ++ outside s.
Proof.
  induction pre as [|c pre IH]; simpl; intros s F W; [reflexivity|].
  apply andb_true_iff in F. destruct F as [M F].
  apply negb_true_iff in M.
  assert (E : isColon c && startsWithWord (pre ++ s) = false).
  { rewrite startsWithWord_append. destruct pre; [|exact M].
    rewrite W. apply andb_false_r. }
  rewrite E. now rewrite IH.
Qed.

Lemma inside_word :
  forall name rest,
    allWord name = true -> startsWithWord rest = false ->
    inside (name ++ rest) = name ++ "}" ++ outside rest.
Proof.
  induction name as [|c name IH]; simpl; intros rest A W.
  - destruct rest as [|d rest]; [reflexivity|].
    rewrite inside_cons. simpl in W. now rewrite W.
  - apply andb_true_iff in A. destruct A as [Wc A].
    rewrite Wc. now rewrite IH.
Qed.

Lemma outside_marker :
  forall name rest,
    allWord name = true -> name <> EmptyString -> startsWithWord rest = false ->
    outside (":" ++ name ++ rest) = "{" ++ name ++ "}" ++ outside rest.
Proof.
  intros name rest A N W.
  destruct name as [|c name]; [contradiction|].
  assert (Wc : isWordChar c = true).
  { simpl in A. now apply andb_true_iff in A. }
  change (":" ++ String c name ++ rest)
    with (String ":" (String c (name ++ rest))).
  cbn [outside]. change (isColon ":") with true.
  cbn [startsWithWord andb]. rewrite Wc.
  change (String c (name ++ rest)) with (String c name ++ rest).
  rewrite inside_word by assumption. reflexivity.
Qed.

End PathRewriteFacts.

(** C5: the rewrite turns each [:name] marker into [{name}] in one pass over
    the whole path: the text before the first marker is copied, the marker
    becomes the braced name and the rest is rewritten in the same way; so
    [/users/:id/posts/:postId] becomes [/users/{id}/posts/{postId}]. A
    rewritten path holds no marker, a path with no marker is left as it is,
    and so rewriting a rewritten path changes nothing. *)
Theorem toSwaggerPath_rewrites_every_marker :
  toSwaggerPath "/users/:id/posts/:postId" = "/users/{id}/posts/{postId}" /\
  (forall pre name rest,
      PathRewrite.markerFree pre = true ->
      PathRewrite.allWord name = true -> name <> EmptyString ->
      PathRewrite.startsWithWord rest = false ->
      toSwaggerPath (pre ++ ":" ++ name ++ rest) =
      pre ++ "{" ++ name ++ "}" ++ toSwaggerPath rest) /\
  (forall path, PathRewrite.markerFree path = true -> toSwaggerPath path = path) /\
  (forall path, PathRewrite.markerFree (toSwaggerPath path) = true) /\
  (forall path, toSwaggerPath (toSwaggerPath path) = toSwaggerPath path).
Proof.
  unfold toSwaggerPath. repeat split.
  - intros pre name rest F A N W.
    rewrite outside_append; [|exact F|reflexivity].
    now rewrite outside_marker.
  - exact outside_markerFree.
  - intro path. apply markerFree_scanned.
  - intro path. apply outside_markerFree, markerFree_scanned.
Qed.

(** The rewrite at [/a.b/:id-:v2/x]: the dot is copied, both markers are
    braced, and the dash ends the first name. *)
Lemma toSwaggerPath_rewrites_every_marker_witness :
  toSwaggerPath ("/a.b/" ++ ":" ++ "id" ++ "-:v2/x") =
  "/a.b/" ++ "{" ++ "id" ++ "}" ++ toSwaggerPath "-:v2/x".
Proof.
  apply (proj1 (proj2 toSwaggerPath_rewrites_every_marker));
    [reflexivity | reflexivity | discriminate | reflexivity].
Defined.

(** ** Operation identifiers *)

Section OperationIdFacts.
Import JsString.

Lemma split_nonempty : forall sep s, split sep s <> [].
Proof.
  intros sep s. destruct s as [|c rest]; simpl; [discriminate|].
  destruct (Ascii.eqb c sep); [discriminate|].
  destruct (split sep rest); discriminate.
Qed.

Lemma split_append_segment :
  forall sep path seg,
    split sep (path ++ String sep seg) = (split sep path ++ split sep seg)%list.
Proof.
  intros sep path seg. induction path as [|c path IH]; simpl.
  - now rewrite Ascii.eqb_refl.
  - destruct (Ascii.eqb c sep); [now rewrite IH|].
    rewrite IH. destruct (split sep path) as [|h t] eqn:E; [|reflexivity].
    now apply split_nonempty in E.
Qed.

Lemma join_app : forall a b, join (a ++ b)%list = join a ++ join b.
Proof.
  induction a as [|x a IH]; simpl; intro b; [reflexivity|].
  unfold join in *. simpl. rewrite IH.
  clear. induction x as [|c x IHx]; simpl; [reflexivity|]. now rewrite IHx.
Qed.

Lemma append_assoc : forall a b c : string, (a ++ b) ++ c = a ++ (b ++ c).
Proof.
  induction a as [|x a IH]; simpl; intros; [reflexivity|]. now rewrite IH.
Qed.

End OperationIdFacts.

(** The derived identifier extends along the path: appending [/] and more
    segments appends the names of those segments. *)
Lemma routesToOperationId_append :
  forall path rest method,
    routesToOperationId (path ++ String "/" rest) method =
    routesToOperationId path method ++
    JsString.join
      (List.map
         (fun c =>
            if JsString.startsWith c ":"
            then JsString.capitalize (JsString.slice1 c)
            else JsString.capitalize c)
         (JsString.split "/" rest)).
Proof.
  intros path rest method. unfold routesToOperationId.
  rewrite split_append_segment, map_app, join_app.
  now rewrite append_assoc.
Qed.

(** ** [deepOmit] *)

Section ValueInduction.
Variable P : value -> Prop.
Hypothesis PUndefined : P VUndefined.
Hypothesis PNull : P VNull.
Hypothesis PBool : forall b, P (VBool b).
Hypothesis PNum : forall n, P (VNum n).
Hypothesis PStr : forall s, P (VStr s).
Hypothesis PArr : forall items, Forall P items -> P (VArr items).
Hypothesis PObj :
  forall fields, Forall (fun kv => P (snd kv)) fields -> P (VObj fields).

Fixpoint value_nested_ind (v : value) : P v :=
  match v with
  | VUndefined => PUndefined
  | VNull => PNull
  | VBool b => PBool b
  | VNum n => PNum n
  | VStr s => PStr s
  | VArr items =>
      PArr items
           ((fix all (l : list value) : Forall P l :=
               match l with
               | [] => Forall_nil P
               | x :: rest => Forall_cons x (value_nested_ind x) (all rest)
               end) items)
  | VObj fields =>
      PObj fields
           ((fix all (l : list (string * value))
               : Forall (fun kv => P (snd kv)) l :=
               match l with
               | [] => Forall_nil _
               | kv :: rest =>
                   Forall_cons kv (value_nested_ind (snd kv)) (all rest)
               end) fields)
  end.

End ValueInduction.

Section DeepOmitFacts.
Variable keysToOmit : list string.

Lemma omitFromObject_VObj :
  forall fields,
    omitFromObject keysToOmit (VObj fields) =
    VObj (omitFields keysToOmit fields).
Proof.
  intro fields. simpl. f_equal.
  induction fields as [|[key v] rest IH]; simpl; [reflexivity|].
  destruct (inKeysToOmitIndex keysToOmit key); [exact IH|].
  unfold omitMember. now rewrite IH.
Qed.

Lemma omitFromObject_VArr :
  forall items,
    omitFromObject keysToOmit (VArr items) =
    VArr (List.map (omitMember keysToOmit) items).
Proof. reflexivity. Qed.

Lemma omitFromObject_VStr :
  forall s,
    omitFromObject keysToOmit (VStr s) =
    VObj (List.filter (fun kv => negb (inKeysToOmitIndex keysToOmit (fst kv)))
                      (Js.indexed 0 (Js.chars s))).
Proof. reflexivity. Qed.

Lemma isObject_omitFromObject :
  forall v, Js.isObject v = true ->
            Js.isObject (omitFromObject keysToOmit v) = true.
Proof. destruct v; simpl; intro H; try discriminate; reflexivity. Qed.

Lemma omitMember_primitive :
  forall v, Js.isObject v = false -> omitMember keysToOmit v = v.
Proof. intros v H. unfold omitMember. now rewrite H. Qed.

Lemma omitFields_kept :
  forall l,
    Forall (fun kv => inKeysToOmitIndex keysToOmit (fst kv) = false /\
                      omitMember keysToOmit (snd kv) = snd kv) l ->
    omitFields keysToOmit l = l.
Proof.
  induction 1 as [|[key v] rest [K M] _ IH]; simpl in *; [reflexivity|].
  now rewrite K, M, IH.
Qed.

Lemma indexed_chars_primitive :
  forall s i,
    Forall (fun kv => Js.isObject (snd kv) = false) (Js.indexed i (Js.chars s)).
Proof.
  induction s as [|c s IH]; simpl; intro i; constructor; auto.
Qed.

Lemma omitMember_idempotent_when :
  forall v,
    omitFromObject keysToOmit (omitFromObject keysToOmit v) =
    omitFromObject keysToOmit v ->
    omitMember keysToOmit (omitMember keysToOmit v) = omitMember keysToOmit v.
Proof.
  intros v H. unfold omitMember at 2 3. destruct (Js.isObject v) eqn:O.
  - unfold omitMember. now rewrite isObject_omitFromObject.
  - now apply omitMember_primitive.
Qed.

Lemma omitFromObject_idempotent :
  forall v,
    omitFromObject keysToOmit (omitFromObject keysToOmit v) =
    omitFromObject keysToOmit v.
Proof.
  induction v as [| | b | n | s | items IH | fields IH] using value_nested_ind;
    try reflexivity.
  - (* a string: its characters are primitive and the kept keys stay kept *)
    rewrite omitFromObject_VStr, omitFromObject_VObj. f_equal.
    apply omitFields_kept.
    pose proof (indexed_chars_primitive s 0) as Hp.
    induction Hp as [|kv l Hkv _ IHl]; simpl; [constructor|].
    destruct (inKeysToOmitIndex keysToOmit (fst kv)) eqn:K; simpl; [exact IHl|].
    constructor; [|exact IHl].
    split; [exact K|now apply omitMember_primitive].
  - rewrite !omitFromObject_VArr. f_equal. rewrite map_map.
    apply map_ext_Forall.
    eapply Forall_impl; [|exact IH].
    intros v Hv. now apply omitMember_idempotent_when.
  - rewrite !omitFromObject_VObj. f_equal.
    induction IH as [|[key v] rest Hv _ IHrest]; simpl; [reflexivity|].
    destruct (inKeysToOmitIndex keysToOmit key) eqn:K; [exact IHrest|].
    simpl. rewrite K. simpl in Hv.
    now rewrite omitMember_idempotent_when, IHrest.
Qed.

Lemma omitMember_idempotent :
  forall v,
    omitMember keysToOmit (omitMember keysToOmit v) = omitMember keysToOmit v.
Proof.
  intro v. apply omitMember_idempotent_when, omitFromObject_idempotent.
Qed.

Lemma lookup_omitFields_kept :
  forall key fields,
    inKeysToOmitIndex keysToOmit key = false ->
    lookup String.eqb key (omitFields keysToOmit fields) =
    option_map (omitMember keysToOmit) (lookup String.eqb key fields).
Proof.
  intros key fields K.
  induction fields as [|[k v] rest IH]; simpl; [reflexivity|].
  destruct (String.eqb k key) eqn:E.
  - apply String.eqb_eq in E. subst k. rewrite K. simpl.
    now rewrite String.eqb_refl.
  - destruct (inKeysToOmitIndex keysToOmit k); [exact IH|].
    simpl. now rewrite E.
Qed.

Lemma lookup_omitFields_omitted :
  forall key fields,
    inKeysToOmitIndex keysToOmit key = true ->
    lookup String.eqb key (omitFields keysToOmit fields) = None.
Proof.
  intros key fields K.
  induction fields as [|[k v] rest IH]; simpl; [reflexivity|].
  destruct (inKeysToOmitIndex keysToOmit k) eqn:Kk; [exact IH|].
  simpl. destruct (String.eqb k key) eqn:E; [|exact IH].
  apply String.eqb_eq in E. congruence.
Qed.

End DeepOmitFacts.

(** ** [sanitize] *)

Lemma getPath_primitive :
  forall p v, Js.isObject v = false -> p <> [] -> getPath p v = None.
Proof.
  intros [|[key|i] p] v H N; [contradiction| |]; destruct v; simpl in *;
    try reflexivity; discriminate.
Qed.

Lemma inKeysToOmitIndex_denylist :
  forall key,
    Js.mem key Js.objectPrototypeMembers = false ->
    inKeysToOmitIndex denylist key = Js.mem key denylist.
Proof.
  intros key H. unfold inKeysToOmitIndex. rewrite H. apply orb_false_r.
Qed.

(** Both branches of a conditional are [None]. *)
Ltac if_none :=
  match goal with
  | |- _ = (if ?b then None else _) => destruct b; reflexivity
  end.

(** Reading a path in the sanitized shape: a path through a denylisted key
    leads nowhere, any other path leads to the sanitized form of what it led
    to before. *)
Lemma getPath_sanitize :
  forall p shape,
    Js.isObject shape = true ->
    Forall (fun s => stepInherited s = false) p ->
    getPath p (sanitize shape) =
    if existsb stepOmitted p then None
    else option_map sanitizeMember (getPath p shape).
Proof.
  induction p as [|s p IH]; intros shape O F.
  - simpl. unfold sanitizeMember. now rewrite O.
  - inversion F as [|s' p' Hs Fp]; subst.
    assert (G : forall x,
               getPath p (sanitizeMember x) =
               if existsb stepOmitted p then None
               else option_map sanitizeMember (getPath p x)).
    { intro x. destruct (Js.isObject x) eqn:Ox.
      - unfold sanitizeMember at 1. rewrite Ox. now apply IH.
      - unfold sanitizeMember at 1. rewrite Ox.
        destruct p as [|s0 p0].
        + simpl. unfold sanitizeMember. now rewrite Ox.
        + rewrite getPath_primitive by (assumption || discriminate).
          now destruct (existsb stepOmitted (s0 :: p0)). }
    destruct s as [key|i]; cbn [stepInherited] in Hs.
    + destruct shape; try discriminate O.
      * (* a member of an array that is not an index *)
        cbn [sanitize deepOmit omitFromObject getPath]. now if_none.
      * unfold sanitize, deepOmit. rewrite omitFromObject_VObj.
        cbn [getPath existsb stepOmitted].
        destruct (Js.mem key denylist) eqn:D.
        -- rewrite lookup_omitFields_omitted; [reflexivity|].
           unfold inKeysToOmitIndex. now rewrite D.
        -- rewrite lookup_omitFields_kept
             by (rewrite inKeysToOmitIndex_denylist; assumption).
           cbn [orb]. destruct (lookup String.eqb key fields) as [x|];
             cbn [option_map]; [apply G | now if_none].
    + destruct shape; try discriminate O.
      * unfold sanitize, deepOmit. rewrite omitFromObject_VArr.
        cbn [getPath existsb stepOmitted orb].
        rewrite nth_error_map.
        destruct (nth_error items i) as [x|];
          cbn [option_map]; [apply G | now if_none].
      * unfold sanitize, deepOmit. rewrite omitFromObject_VObj.
        cbn [getPath]. now if_none.
Qed.

Lemma keys_omitFields :
  forall fields,
    Forall (fun key => Js.mem key Js.objectPrototypeMembers = false)
           (List.map fst fields) ->
    List.map fst (omitFields denylist fields) =
    List.filter (fun key => negb (Js.mem key denylist)) (List.map fst fields).
Proof.
  induction fields as [|[key v] rest IH]; intro F; [reflexivity|].
  cbn [List.map fst] in F. inversion F as [|k l Hk Fl]; subst.
  cbn [omitFields List.map fst List.filter].
  rewrite (inKeysToOmitIndex_denylist _ Hk).
  destruct (Js.mem key denylist); cbn [negb List.map fst];
    now rewrite (IH Fl).
Qed.

(** C3: sanitizing a sanitized shape changes nothing, whatever the shape. *)
Theorem sanitize_idempotent :
  forall x, sanitize (sanitize x) = sanitize x.
Proof.
  intro x. unfold sanitize, deepOmit.
  apply omitFromObject_idempotent.
Qed.

(** C2, as amended: in a shape whose keys are none of the names an object
    literal inherits, [sanitize] removes the denylisted keys from every
    object at every depth, also from the objects inside arrays, and keeps
    every other key, in order, with its value sanitized in turn; an array
    keeps its length and has its elements sanitized one by one; a primitive
    leaf is what it was. *)
Theorem sanitize_removes_denylisted_keys_at_every_depth :
  forall shape,
    Js.isObject shape = true ->
    (forall p,
        Forall (fun s => stepInherited s = false) p ->
        getPath p (sanitize shape) =
        if existsb stepOmitted p then None
        else option_map sanitizeMember (getPath p shape)) /\
    (forall p leaf,
        Forall (fun s => stepInherited s = false) p ->
        existsb stepOmitted p = false ->
        getPath p shape = Some leaf -> Js.isObject leaf = false ->
        getPath p (sanitize shape) = Some leaf) /\
    (forall fields,
        shape = VObj fields ->
        Forall (fun key => Js.mem key Js.objectPrototypeMembers = false)
               (List.map fst fields) ->
        keysOf (sanitize shape) =
        List.filter (fun key => negb (Js.mem key denylist)) (List.map fst fields)) /\
    (forall items,
        shape = VArr items -> sanitize shape = VArr (List.map sanitizeMember items)).
Proof.
  intros shape O. repeat split.
  - intros p F. now apply getPath_sanitize.
  - intros p leaf F D G L.
    rewrite getPath_sanitize by assumption.
    rewrite D, G. simpl. unfold sanitizeMember. now rewrite L.
  - intros fields E F. subst shape.
    unfold sanitize, deepOmit. rewrite omitFromObject_VObj. simpl.
    now apply keys_omitFields.
  - intros items E. subst shape. reflexivity.
Qed.

(** The shape of the object schema of the samples: the type of the [id]
    property is still there after sanitizing. *)
Lemma sanitize_removes_denylisted_keys_witness :
  getPath [Member "properties"; Member "id"; Member "type"]
          (sanitize (Sample.JoiToJSONSchema Sample.JoiObjectSchema)) =
  Some (VStr "string").
Proof.
  exact (proj1 (sanitize_removes_denylisted_keys_at_every_depth
                  (Sample.JoiToJSONSchema Sample.JoiObjectSchema) eq_refl)
               [Member "properties"; Member "id"; Member "type"]
               ltac:(repeat constructor)).
Defined.

(** C2, as stated, fails on arrays: [deepOmit] goes into an array and strips
    the objects it holds, so the array is not left as it was. *)
Lemma sanitize_rewrites_arrays :
  let shape :=
    VObj [("anyOf", VArr [VObj [ ("type", VStr "object");
                                 ("additionalProperties", VBool false) ]])] in
  getPath [Member "anyOf"] shape =
  Some (VArr [VObj [ ("type", VStr "object");
                     ("additionalProperties", VBool false) ]]) /\
  getPath [Member "anyOf"] (sanitize shape) =
  Some (VArr [VObj [("type", VStr "object")]]) /\
  getPath [Member "anyOf"] (sanitize shape) <> getPath [Member "anyOf"] shape.
Proof.
  repeat split. discriminate.
Qed.

(** The [in] test of [deepOmit] also answers true for the names every
    object literal inherits: a property called [constructor] is dropped
    although the denylist does not name it. *)
Example sanitize_drops_inherited_names :
  sanitize (VObj [("properties", VObj [ ("constructor", VObj [("type", VStr "string")]);
                                       ("id", VObj [("type", VStr "string")]) ])]) =
  VObj [("properties", VObj [("id", VObj [("type", VStr "string")])])].
Proof. reflexivity. Qed.

(** ** The paths of the document *)

Lemma methodKey_injective :
  forall m m', methodKey m = methodKey m' -> m = m'.
Proof. intros [] []; simpl; intro H; (reflexivity || discriminate H). Qed.

Lemma operationEntries_app :
  forall a b,
    operationEntries (a ++ b) = (operationEntries a ++ operationEntries b)%list.
Proof. intros a b. unfold operationEntries. apply flat_map_app. Qed.

Lemma operationEntries_cons :
  forall p entry rest,
    operationEntries ((p, entry) :: rest) =
    (List.map (fun op => (p, fst op, snd op)) entry ++ operationEntries rest)%list.
Proof. reflexivity. Qed.

Lemma In_operationEntries :
  forall p k op paths,
    In (p, k, op) (operationEntries paths) <->
    exists entry, In (p, entry) paths /\ In (k, op) entry.
Proof.
  intros p k op paths. unfold operationEntries. rewrite in_flat_map. split.
  - intros ([p' entry] & I & M). apply in_map_iff in M.
    destruct M as ([k' op'] & E & M). simpl in E. inversion E; subst.
    now exists entry.
  - intros (entry & I & M). exists (p, entry). split; [exact I|].
    apply in_map_iff. now exists (k, op).
Qed.

(** What writing one operation does to the paths: a new path entry goes
    last, holding the operation alone; an entry that is there keeps its place
    and takes the operation under the method key. *)
Lemma putOperation_cases :
  forall swaggerPath key operation paths,
    let ensured :=
      match lookup String.eqb swaggerPath paths with
      | Some _ => paths
      | None => assign String.eqb swaggerPath [] paths
      end in
    (lookup String.eqb swaggerPath paths = None /\
     putOperation swaggerPath key operation ensured =
     (paths ++ [(swaggerPath, [(key, operation)])])%list) \/
    (exists l1 entry l2,
        paths = (l1 ++ (swaggerPath, entry) :: l2)%list /\
        lookup String.eqb swaggerPath l1 = None /\
        putOperation swaggerPath key operation ensured =
        (l1 ++ (swaggerPath, assign String.eqb key operation entry) :: l2)%list).
Proof.
  intros swaggerPath key operation paths ensured. subst ensured.
  unfold putOperation, Swagger.Path in *.
  destruct (lookup String.eqb swaggerPath paths) as [entry|] eqn:L.
  - right.
    destruct (lookup_split String.eqb string_eqb_spec _ _ _ L)
      as (l1 & l2 & E & N).
    exists l1, entry, l2. repeat split; try assumption.
    rewrite L. subst paths.
    apply (assign_split String.eqb string_eqb_spec). exact N.
  - left. split; [reflexivity|].
    rewrite (lookup_assign_same String.eqb string_eqb_spec).
    rewrite (assign_absent String.eqb _ _ _ L).
    rewrite (assign_split String.eqb string_eqb_spec) by exact L.
    reflexivity.
Qed.

Section GeneratorFacts.
Context {Joi : Type}.
Variable JoiToJSONSchema : Joi -> value.
Variable describe : Joi -> JoiDescription.
Variable store : ref -> SchemaObject Joi.
Variable info : SwaggerRouteOptions.

#[local] Abbreviation operation := (operationOf JoiToJSONSchema describe store info).
#[local] Abbreviation add := (addChain JoiToJSONSchema describe store info).
#[local] Abbreviation addAll := (addChains JoiToJSONSchema describe store info).

Lemma addChain_Some :
  forall paths routes paths',
    add paths routes = Some paths' ->
    exists endRoute,
      endRouteOf routes = Some endRoute /\
      let swaggerPath := toSwaggerPath (corgiPathOf routes) in
      let key := methodKey (route_method endRoute) in
      (lookup String.eqb swaggerPath paths = None /\
       paths' = (paths ++ [(swaggerPath, [(key, operation routes endRoute)])])%list) \/
      (exists l1 entry l2,
          paths = (l1 ++ (swaggerPath, entry) :: l2)%list /\
          lookup String.eqb swaggerPath l1 = None /\
          paths' =
          (l1 ++ (swaggerPath,
                  assign String.eqb key (operation routes endRoute) entry) :: l2)%list).
Proof.
  intros paths routes paths' H. unfold addChain in H.
  destruct (endRouteOf routes) as [endRoute|]; [|discriminate].
  exists endRoute. split; [reflexivity|].
  inversion H as [E]. clear H E.
  exact (putOperation_cases (toSwaggerPath (corgiPathOf routes))
           (methodKey (route_method endRoute)) (operation routes endRoute) paths).
Qed.

Lemma addChain_total :
  forall paths routes,
    endRouteOf routes <> None -> exists paths', add paths routes = Some paths'.
Proof.
  intros paths routes H. unfold addChain.
  destruct (endRouteOf routes); [eexists; reflexivity|contradiction].
Qed.

Lemma addChains_nil : forall paths, addAll [] paths = Some paths.
Proof. reflexivity. Qed.

Lemma addChains_cons :
  forall routes chains paths,
    addAll (routes :: chains) paths =
    match add paths routes with
    | Some paths' => addAll chains paths'
    | None => None
    end.
Proof.
  intros routes chains paths. unfold addChains. simpl.
  destruct (addChain _ _ _ info paths routes); [reflexivity|].
  induction chains as [|c chains IH]; [reflexivity|exact IH].
Qed.

(** Every entry written by a chain is the operation built for that chain,
    under its rewritten path and method key. *)
Lemma addChain_entries :
  forall paths routes paths' p k op,
    add paths routes = Some paths' ->
    In (p, k, op) (operationEntries paths') ->
    In (p, k, op) (operationEntries paths) \/
    exists endRoute,
      endRouteOf routes = Some endRoute /\
      p = toSwaggerPath (corgiPathOf routes) /\
      k = methodKey (route_method endRoute) /\
      op = operation routes endRoute.
Proof.
  intros paths routes paths' p k op H I.
  destruct (addChain_Some _ _ _ H)
    as (endRoute & E & [[_ ->]|(l1 & entry & l2 & Ep & _ & ->)]).
  - rewrite operationEntries_app in I. apply in_app_or in I.
    destruct I as [I|I]; [now left|right].
    simpl in I. destruct I as [I|[]]. inversion I; subst.
    now exists endRoute.
  - rewrite operationEntries_app, operationEntries_cons in I.
    subst paths. rewrite operationEntries_app, operationEntries_cons.
    apply in_app_or in I. destruct I as [I|I]; [left; apply in_or_app; now left|].
    apply in_app_or in I. destruct I as [I|I];
      [|left; apply in_or_app; right; apply in_or_app; now right].
    apply in_map_iff in I. destruct I as ([k' op'] & Eq & I).
    simpl in Eq. inversion Eq; subst.
    apply (assign_In_inv String.eqb string_eqb_spec) in I.
    destruct I as [I|I].
    + right. inversion I; subst. now exists endRoute.
    + left. apply in_or_app; right; apply in_or_app; left.
      apply in_map_iff. now exists (k, op).
Qed.

Lemma addChains_entries :
  forall chains paths paths' p k op,
    addAll chains paths = Some paths' ->
    In (p, k, op) (operationEntries paths') ->
    In (p, k, op) (operationEntries paths) \/
    exists routes endRoute,
      In routes chains /\
      endRouteOf routes = Some endRoute /\
      p = toSwaggerPath (corgiPathOf routes) /\
      k = methodKey (route_method endRoute) /\
      op = operation routes endRoute.
Proof.
  induction chains as [|routes chains IH]; intros paths paths' p k op H I.
  - rewrite addChains_nil in H. inversion H; subst. now left.
  - rewrite addChains_cons in H.
    destruct (add paths routes) as [paths1|] eqn:A; [|discriminate].
    destruct (IH _ _ _ _ _ H I) as [I1|(r & e & Ir & Rest)].
    + destruct (addChain_entries _ _ _ _ _ _ A I1) as [I0|(e & Rest)];
        [now left|right].
      exists routes, e. split; [now left|exact Rest].
    + right. exists r, e. split; [now right|exact Rest].
Qed.

Lemma addChains_total :
  forall chains paths,
    (forall routes, In routes chains -> endRouteOf routes <> None) ->
    exists paths', addAll chains paths = Some paths'.
Proof.
  induction chains as [|routes chains IH]; intros paths H.
  - eexists. apply addChains_nil.
  - rewrite addChains_cons.
    destruct (addChain_total paths routes) as [paths1 ->];
      [apply H; now left|].
    apply IH. intros r Ir. apply H. now right.
Qed.

End GeneratorFacts.

Lemma lookup_app :
  forall {V : Type} key (l1 l2 : list (string * V)),
    lookup String.eqb key (l1 ++ l2) =
    match lookup String.eqb key l1 with
    | Some v => Some v
    | None => lookup String.eqb key l2
    end.
Proof.
  intros V key l1 l2. induction l1 as [|[k v] rest IH]; simpl; [reflexivity|].
  now destruct (String.eqb k key).
Qed.

Section GeneratorPaths.
Context {Joi : Type}.
Variable JoiToJSONSchema : Joi -> value.
Variable describe : Joi -> JoiDescription.
Variable store : ref -> SchemaObject Joi.
Variable info : SwaggerRouteOptions.

#[local] Abbreviation operation := (operationOf JoiToJSONSchema describe store info).
#[local] Abbreviation add := (addChain JoiToJSONSchema describe store info).
#[local] Abbreviation addAll := (addChains JoiToJSONSchema describe store info).

Lemma addChain_count :
  forall paths routes paths' endRoute,
    add paths routes = Some paths' ->
    endRouteOf routes = Some endRoute ->
    (forall op, ~ In (toSwaggerPath (corgiPathOf routes),
                      methodKey (route_method endRoute), op)
                     (operationEntries paths)) ->
    List.length (operationEntries paths') = S (List.length (operationEntries paths)).
Proof.
  intros paths routes paths' endRoute H E Fresh.
  destruct (addChain_Some _ _ _ _ _ _ _ H)
    as (endRoute' & E' & [[_ ->]|(l1 & entry & l2 & Ep & _ & ->)]);
    rewrite E in E'; inversion E'; subst endRoute'.
  - rewrite operationEntries_app, length_app. simpl. lia.
  - subst paths.
    assert (N : lookup String.eqb (methodKey (route_method endRoute)) entry = None).
    { destruct (lookup String.eqb (methodKey (route_method endRoute)) entry)
        as [op|] eqn:L; [|reflexivity].
      exfalso. apply (Fresh op). apply In_operationEntries.
      exists entry. split; [apply in_or_app; right; now left|].
      now apply (lookup_Some_In String.eqb string_eqb_spec). }
    rewrite (assign_absent String.eqb _ _ _ N).
    rewrite !operationEntries_app, !operationEntries_cons.
    rewrite !length_app, !length_map, length_app. simpl. lia.
Qed.

Lemma addChain_find_same :
  forall paths routes paths' endRoute,
    add paths routes = Some paths' ->
    endRouteOf routes = Some endRoute ->
    findOperation (toSwaggerPath (corgiPathOf routes)) (route_method endRoute) paths' =
    Some (operation routes endRoute).
Proof.
  intros paths routes paths' endRoute H E.
  destruct (addChain_Some _ _ _ _ _ _ _ H)
    as (endRoute' & E' & [[N ->]|(l1 & entry & l2 & Ep & N & ->)]);
    rewrite E in E'; inversion E'; subst endRoute'; unfold findOperation;
    rewrite lookup_app, N; simpl; rewrite String.eqb_refl.
  - simpl. now rewrite String.eqb_refl.
  - apply (lookup_assign_same String.eqb string_eqb_spec).
Qed.

Lemma addChain_find_other :
  forall paths routes paths' endRoute p m,
    add paths routes = Some paths' ->
    endRouteOf routes = Some endRoute ->
    (p, m) <> (toSwaggerPath (corgiPathOf routes), route_method endRoute) ->
    findOperation p m paths' = findOperation p m paths.
Proof.
  intros paths routes paths' endRoute p m H E Other.
  destruct (addChain_Some _ _ _ _ _ _ _ H)
    as (endRoute' & E' & [[N ->]|(l1 & entry & l2 & Ep & N & ->)]);
    rewrite E in E'; inversion E'; subst endRoute'; unfold findOperation.
  - rewrite lookup_app. destruct (lookup String.eqb p paths) eqn:L; [reflexivity|].
    simpl. destruct (String.eqb (toSwaggerPath (corgiPathOf routes)) p) eqn:Ep;
      [|reflexivity].
    apply String.eqb_eq in Ep. subst p. simpl.
    destruct (String.eqb (methodKey (route_method endRoute)) (methodKey m)) eqn:Em;
      [|reflexivity].
    apply String.eqb_eq, methodKey_injective in Em. subst m. now contradiction Other.
  - subst paths. rewrite !lookup_app.
    destruct (lookup String.eqb p l1) eqn:L; [reflexivity|].
    simpl. destruct (String.eqb (toSwaggerPath (corgiPathOf routes)) p) eqn:Ep;
      [|reflexivity].
    apply String.eqb_eq in Ep. subst p.
    apply (lookup_assign_other String.eqb string_eqb_spec).
    intro Em. apply methodKey_injective in Em. subst m. now contradiction Other.
Qed.

Lemma addChain_NoDup_paths :
  forall paths routes paths',
    add paths routes = Some paths' ->
    NoDup (List.map fst paths) -> NoDup (List.map fst paths').
Proof.
  intros paths routes paths' H N.
  destruct (addChain_Some _ _ _ _ _ _ _ H)
    as (endRoute & E & [[L ->]|(l1 & entry & l2 & Ep & _ & ->)]).
  - rewrite map_app. apply NoDup_app; [exact N|repeat constructor; intros []|].
    intros a Ia [<-|[]].
    now apply (lookup_None_keys String.eqb string_eqb_spec _ _ L).
  - subst paths. rewrite map_app in *. exact N.
Qed.

Lemma addChains_count :
  forall chains paths paths',
    addAll chains paths = Some paths' ->
    NoDup (List.map chainKey chains) ->
    (forall routes p m op,
        In routes chains -> chainKey routes = Some (p, m) ->
        ~ In (p, methodKey m, op) (operationEntries paths)) ->
    List.length (operationEntries paths') =
    List.length (operationEntries paths) + List.length chains.
Proof.
  induction chains as [|routes chains IH]; intros paths paths' H N Fresh.
  - rewrite addChains_nil in H. inversion H. simpl. lia.
  - rewrite addChains_cons in H.
    destruct (add paths routes) as [paths1|] eqn:A; [|discriminate].
    destruct (addChain_Some _ _ _ _ _ _ _ A) as (endRoute & E & _).
    assert (K : chainKey routes =
                Some (toSwaggerPath (corgiPathOf routes), route_method endRoute)).
    { unfold chainKey. now rewrite E. }
    simpl in N. inversion N as [|k ks Nk Nks]; subst.
    rewrite (IH paths1 paths' H Nks).
    + rewrite (addChain_count _ _ _ _ A E).
      * simpl. lia.
      * intro op. apply (Fresh routes); [now left|exact K].
    + intros r p m op Ir Kr I.
      destruct (addChain_entries _ _ _ _ _ _ _ _ _ _ A I) as [I0|(e & Ee & -> & Ek & _)].
      * apply (Fresh r p m op); [now right|exact Kr|exact I0].
      * rewrite E in Ee. inversion Ee; subst e.
        apply methodKey_injective in Ek. subst m.
        apply Nk. rewrite K, <- Kr. now apply in_map.
Qed.

Lemma addChains_find_other :
  forall chains paths paths' p m,
    addAll chains paths = Some paths' ->
    ~ In (Some (p, m)) (List.map chainKey chains) ->
    findOperation p m paths' = findOperation p m paths.
Proof.
  induction chains as [|routes chains IH]; intros paths paths' p m H N.
  - rewrite addChains_nil in H. now inversion H.
  - rewrite addChains_cons in H.
    destruct (add paths routes) as [paths1|] eqn:A; [|discriminate].
    destruct (addChain_Some _ _ _ _ _ _ _ A) as (endRoute & E & _).
    rewrite (IH paths1 paths' p m H) by (intro I; apply N; now right).
    apply (addChain_find_other _ _ _ endRoute _ _ A E).
    intro Eq. apply N. left. unfold chainKey. rewrite E. simpl. now rewrite Eq.
Qed.

Lemma addChains_find :
  forall chains paths paths' routes endRoute,
    addAll chains paths = Some paths' ->
    NoDup (List.map chainKey chains) ->
    In routes chains -> endRouteOf routes = Some endRoute ->
    findOperation (toSwaggerPath (corgiPathOf routes)) (route_method endRoute) paths' =
    Some (operation routes endRoute).
Proof.
  induction chains as [|c chains IH]; intros paths paths' routes endRoute H N I E.
  - contradiction.
  - rewrite addChains_cons in H.
    destruct (add paths c) as [paths1|] eqn:A; [|discriminate].
    simpl in N. inversion N as [|k ks Nk Nks]; subst.
    destruct I as [<-|I].
    + rewrite (addChains_find_other _ _ _ _ _ H).
      * exact (addChain_find_same _ _ _ _ A E).
      * intro In'. apply Nk. unfold chainKey at 1. now rewrite E.
    + now apply (IH paths1).
Qed.

Lemma addChains_NoDup_paths :
  forall chains paths paths',
    addAll chains paths = Some paths' ->
    NoDup (List.map fst paths) -> NoDup (List.map fst paths').
Proof.
  induction chains as [|c chains IH]; intros paths paths' H N.
  - rewrite addChains_nil in H. now inversion H; subst.
  - rewrite addChains_cons in H.
    destruct (add paths c) as [paths1|] eqn:A; [|discriminate].
    apply (IH paths1 paths' H). now apply (addChain_NoDup_paths _ _ _ A).
Qed.

End GeneratorPaths.

(** ** The flattener *)

Section RouteNodeInduction.
Context {Joi : Type}.
Variable P : RouteNode Joi -> Prop.
Hypothesis PRoute : forall r, P (NodeRoute r).
Hypothesis PNamespace :
  forall path params children,
    Forall P children -> P (NodeNamespace path params children).

Fixpoint RouteNode_nested_ind (n : RouteNode Joi) : P n :=
  match n with
  | NodeRoute r => PRoute r
  | NodeNamespace path params children =>
      PNamespace path params children
        ((fix all (l : list (RouteNode Joi)) : Forall P l :=
            match l with
            | [] => Forall_nil P
            | c :: rest => Forall_cons c (RouteNode_nested_ind c) (all rest)
            end) children)
  end.

End RouteNodeInduction.

Section FlattenFacts.
Context {Joi : Type}.

Lemma endRouteOf_cons :
  forall (n : RouteNode Joi) routes,
    routes <> [] -> endRouteOf (n :: routes) = endRouteOf routes.
Proof.
  intros n [|c routes] H; [contradiction|].
  unfold endRouteOf. cbn [List.length]. rewrite !Nat.sub_succ, !Nat.sub_0_r.
  reflexivity.
Qed.

Lemma flattenNode_ends_in_route :
  forall (n : RouteNode Joi) routes,
    In routes (flattenNode n) -> exists r, endRouteOf routes = Some r.
Proof.
  induction n as [r|path params children IH] using RouteNode_nested_ind;
    intros routes I.
  - simpl in I. destruct I as [<-|[]]. now exists r.
  - simpl in I. apply in_map_iff in I. destruct I as (tail & <- & I).
    apply in_flat_map in I. destruct I as (child & Ic & It).
    rewrite Forall_forall in IH.
    destruct (IH child Ic tail It) as (r & E). exists r.
    rewrite endRouteOf_cons; [exact E|].
    intro N. subst tail. discriminate E.
Qed.

Lemma flattenRoutes_ends_in_route :
  forall (tree : Routes Joi) routes,
    In routes (flattenRoutes tree) -> endRouteOf routes <> None.
Proof.
  intros tree routes I. unfold flattenRoutes in I.
  apply in_flat_map in I. destruct I as (n & _ & I).
  destruct (flattenNode_ends_in_route n routes I) as (r & ->). discriminate.
Qed.

Lemma length_flat_map_sum :
  forall {A B : Type} (f : A -> list B) (g : A -> nat) l,
    Forall (fun x => List.length (f x) = g x) l ->
    List.length (List.flat_map f l) = list_sum (List.map g l).
Proof.
  intros A B f g l H. induction H as [|x l Hx _ IH]; simpl; [reflexivity|].
  now rewrite length_app, Hx, IH.
Qed.

Lemma length_flattenNode :
  forall n : RouteNode Joi, List.length (flattenNode n) = terminalRoutes n.
Proof.
  induction n as [r|path params children IH] using RouteNode_nested_ind.
  - reflexivity.
  - simpl. rewrite length_map. now apply length_flat_map_sum.
Qed.

Lemma length_flattenRoutes :
  forall tree : Routes Joi,
    List.length (flattenRoutes tree) = list_sum (List.map terminalRoutes tree).
Proof.
  intro tree. unfold flattenRoutes. apply length_flat_map_sum.
  apply Forall_forall. intros n _. apply length_flattenNode.
Qed.

End FlattenFacts.

(** ** The document *)

Section DocumentFacts.
Context {Joi : Type}.
Variable JoiToJSONSchema : Joi -> value.
Variable describe : Joi -> JoiDescription.
Variable store : ref -> SchemaObject Joi.
Variable flatten : Routes Joi -> list (Routes Joi).

Lemma generateJSON_Some :
  forall info request tree doc,
    generateJSON JoiToJSONSchema describe store flatten info request tree = Some doc ->
    exists context,
      requestContext request = Some context /\
      addChains JoiToJSONSchema describe store info (flatten tree) [] =
      Some (Swagger.paths doc) /\
      Swagger.swagger doc = "2.0" /\
      Swagger.host doc = lookup String.eqb "Host" (headers request) /\
      Swagger.basePath doc = "/" ++ stage context ++ "/" /\
      Swagger.schemes doc = [lookup String.eqb "X-Forwarded-Proto" (headers request)] /\
      Swagger.produces doc = ["application/json; charset=utf-8"] /\
      Swagger.tags doc = [].
Proof.
  intros info request tree doc H. unfold generateJSON in H.
  destruct (addChains _ _ _ info (flatten tree) []) as [paths|]; [|discriminate].
  destruct (requestContext request) as [context|]; [|discriminate].
  inversion H; subst doc. exists context. repeat split.
Qed.

Lemma generateJSON_total :
  forall info request tree context,
    requestContext request = Some context ->
    (forall routes, In routes (flatten tree) -> endRouteOf routes <> None) ->
    exists doc,
      generateJSON JoiToJSONSchema describe store flatten info request tree = Some doc.
Proof.
  intros info request tree context C E. unfold generateJSON.
  destruct (addChains_total JoiToJSONSchema describe store info (flatten tree) [] E)
    as (paths & ->).
  rewrite C. eexists. reflexivity.
Qed.

Lemma generateJSON_entries :
  forall info request tree doc p k op,
    generateJSON JoiToJSONSchema describe store flatten info request tree = Some doc ->
    In (p, k, op) (operationEntries (Swagger.paths doc)) ->
    exists routes endRoute,
      In routes (flatten tree) /\
      endRouteOf routes = Some endRoute /\
      p = toSwaggerPath (corgiPathOf routes) /\
      k = methodKey (route_method endRoute) /\
      op = operationOf JoiToJSONSchema describe store info routes endRoute.
Proof.
  intros info request tree doc p k op H I.
  destruct (generateJSON_Some _ _ _ _ H) as (context & _ & A & _).
  destruct (addChains_entries _ _ _ _ _ _ _ _ _ _ A I) as [[]|R].
  exact R.
Qed.

End DocumentFacts.

(** The flattener of the specification always gives chains that end in a
    route: with a request context, the generator returns a document. *)
Lemma generateJSON_returns :
  forall {Joi : Type} JoiToJSONSchema describe store info request
         (tree : Routes Joi) context,
    requestContext request = Some context ->
    exists doc,
      generateJSON JoiToJSONSchema describe store flattenRoutes info request tree =
      Some doc.
Proof.
  intros Joi J d s info request tree context C.
  apply (generateJSON_total J d s flattenRoutes info request tree context C).
  apply flattenRoutes_ends_in_route.
Qed.

(** ** The claims on the document *)

(** C8: in every generated document, [swagger] is ["2.0"], [produces] is
    the one media type, [tags] is empty, [schemes] holds the value of the
    [X-Forwarded-Proto] header alone, [host] is the value of the [Host]
    header and [basePath] is the stage between two slashes. *)
Theorem generateJSON_top_level_fields :
  forall {Joi : Type} JoiToJSONSchema describe store
         (flatten : Routes Joi -> list (Routes Joi)) info request tree doc,
    generateJSON JoiToJSONSchema describe store flatten info request tree = Some doc ->
    Swagger.swagger doc = "2.0" /\
    Swagger.produces doc = ["application/json; charset=utf-8"] /\
    Swagger.tags doc = [] /\
    Swagger.schemes doc = [lookup String.eqb "X-Forwarded-Proto" (headers request)] /\
    Swagger.host doc = lookup String.eqb "Host" (headers request) /\
    exists context,
      requestContext request = Some context /\
      Swagger.basePath doc = "/" ++ stage context ++ "/".
Proof.
  intros Joi J d s flatten info request tree doc H.
  destruct (generateJSON_Some J d s flatten _ _ _ _ H)
    as (context & C & _ & Hs & Hh & Hb & Hsc & Hp & Ht).
  repeat split; try assumption.
  exists context. now split.
Qed.

(** The document of the ping tree, behind the [prod] stage. *)
Lemma generateJSON_top_level_fields_witness :
  exists doc,
    generateJSON Sample.JoiToJSONSchema Sample.describe Sample.store flattenRoutes
                 (Sample.options None) Sample.request Sample.pingTree = Some doc /\
    Swagger.schemes doc = [Some "https"] /\
    Swagger.host doc = Some "api.example.com" /\
    Swagger.basePath doc = "/prod/".
Proof.
  eexists. split; [reflexivity|].
  destruct (generateJSON_top_level_fields
              Sample.JoiToJSONSchema Sample.describe Sample.store flattenRoutes
              (Sample.options None) Sample.request Sample.pingTree _ eq_refl)
    as (_ & _ & _ & Hsc & Hh & context & C & Hb).
  inversion C; subst context. repeat split; assumption.
Defined.

(** C10: every operation object, for every chain of every tree, carries a
    [produces] of its own with the one media type; so does every operation
    of a generated document. *)
Theorem every_operation_produces_json :
  forall {Joi : Type} JoiToJSONSchema describe store
         (flatten : Routes Joi -> list (Routes Joi)) info,
    (forall routes endRoute,
        Swagger.op_produces
          (operationOf JoiToJSONSchema describe store info routes endRoute) =
        ["application/json; charset=utf-8"]) /\
    (forall request tree doc p k op,
        generateJSON JoiToJSONSchema describe store flatten info request tree = Some doc ->
        In (p, k, op) (operationEntries (Swagger.paths doc)) ->
        Swagger.op_produces op = ["application/json; charset=utf-8"]).
Proof.
  intros Joi J d s flatten info. split; [reflexivity|].
  intros request tree doc p k op H I.
  destruct (generateJSON_entries J d s flatten _ _ _ _ _ _ _ H I)
    as (routes & endRoute & _ & _ & _ & _ & ->).
  reflexivity.
Qed.

(** The two operations of the users tree. *)
Lemma every_operation_produces_json_witness :
  exists doc,
    generateJSON Sample.JoiToJSONSchema Sample.describe Sample.store flattenRoutes
                 (Sample.options None) Sample.request Sample.usersTree = Some doc /\
    Forall (fun entry =>
              Swagger.op_produces (snd entry) = ["application/json; charset=utf-8"])
           (operationEntries (Swagger.paths doc)).
Proof.
  eexists. split; [reflexivity|].
  apply Forall_forall. intros [[p k] op] I.
  exact (proj2 (every_operation_produces_json
                  Sample.JoiToJSONSchema Sample.describe Sample.store flattenRoutes
                  (Sample.options None))
               Sample.request Sample.usersTree _ p k op eq_refl I).
Defined.

(** C6, as amended: the operation of a route whose responses are absent
    has the one response 200, described as "Success", with no [schema]
    member, while a route that declares an empty collection of responses
    gets an empty response map; and when the chains have distinct keys and
    no rewritten path is an inherited name, the operation with the default
    response is the one the document holds for the route. *)
Theorem no_declared_responses_gives_default :
  forall {Joi : Type} JoiToJSONSchema describe store
         (flatten : Routes Joi -> list (Routes Joi)) info,
    (forall routes endRoute,
        route_responses endRoute = None ->
        Swagger.op_responses
          (operationOf JoiToJSONSchema describe store info routes endRoute) =
        [ (200%Z, {| Swagger.resp_description := "Success";
                     Swagger.resp_schema := None |}) ]) /\
    (forall routes endRoute,
        route_responses endRoute = Some [] ->
        Swagger.op_responses
          (operationOf JoiToJSONSchema describe store info routes endRoute) = []) /\
    (forall request tree doc routes endRoute,
        generateJSON JoiToJSONSchema describe store flatten info request tree = Some doc ->
        ownPathNames (flatten tree) = true ->
        NoDup (List.map chainKey (flatten tree)) ->
        In routes (flatten tree) ->
        endRouteOf routes = Some endRoute ->
        route_responses endRoute = None ->
        exists op,
          findOperation (toSwaggerPath (corgiPathOf routes)) (route_method endRoute)
                        (Swagger.paths doc) = Some op /\
          Swagger.op_responses op =
          [ (200%Z, {| Swagger.resp_description := "Success";
                       Swagger.resp_schema := None |}) ]).
Proof.
  intros Joi J d s flatten info.
  assert (D : forall routes endRoute,
             route_responses endRoute = None ->
             Swagger.op_responses (operationOf J d s info routes endRoute) =
             [ (200%Z, {| Swagger.resp_description := "Success";
                          Swagger.resp_schema := None |}) ]).
  { intros routes endRoute N. unfold operationOf, responsesOf. simpl.
    now rewrite N. }
  split; [exact D|]. split.
  - intros routes endRoute N. unfold operationOf, responsesOf. simpl.
    now rewrite N.
  - intros request tree doc routes endRoute H _ N I E R.
    destruct (generateJSON_Some J d s flatten _ _ _ _ H) as (context & _ & A & _).
    exists (operationOf J d s info routes endRoute). split.
    + exact (addChains_find J d s info _ _ _ _ _ A N I E).
    + now apply D.
Qed.

(** The ping route declares no responses. *)
Lemma no_declared_responses_gives_default_witness :
  exists doc op,
    generateJSON Sample.JoiToJSONSchema Sample.describe Sample.store flattenRoutes
                 (Sample.options None) Sample.request Sample.pingTree = Some doc /\
    findOperation "/ping" GET (Swagger.paths doc) = Some op /\
    Swagger.op_responses op =
    [ (200%Z, {| Swagger.resp_description := "Success";
                 Swagger.resp_schema := None |}) ].
Proof.
  eexists.
  destruct (proj2 (proj2 (no_declared_responses_gives_default
                     Sample.JoiToJSONSchema Sample.describe Sample.store flattenRoutes
                     (Sample.options None)))
                  Sample.request Sample.pingTree _
                  [ NodeNamespace "" [] [NodeRoute (Sample.route GET "/ping" None)];
                    NodeRoute (Sample.route GET "/ping" None) ]
                  (Sample.route GET "/ping" None)
                  eq_refl
                  eq_refl
                  ltac:(repeat constructor; simpl; tauto)
                  ltac:(simpl; tauto)
                  eq_refl eq_refl)
    as (op & F & R).
  exists op. repeat split; assumption.
Defined.

(** C6, as stated, fails for a route that declares an empty collection of
    responses: the collection is truthy, the [reduce] runs over nothing,
    and the response map is empty, not the default. *)
Lemma empty_responses_give_empty_map :
  let endRoute : Route Sample.Joi :=
    {| route_path := "/ping"; route_method := GET;
       route_description := None; route_operationId := None;
       route_params := []; route_responses := Some [] |} in
  route_responses endRoute = Some [] /\
  Swagger.op_responses
    (operationOf Sample.JoiToJSONSchema Sample.describe Sample.store
                 (Sample.options None) [NodeRoute endRoute] endRoute) = [] /\
  Swagger.op_responses
    (operationOf Sample.JoiToJSONSchema Sample.describe Sample.store
                 (Sample.options None) [NodeRoute endRoute] endRoute) <>
  [ (200%Z, {| Swagger.resp_description := "Success";
               Swagger.resp_schema := None |}) ].
Proof.
  repeat split. discriminate.
Qed.

(** C9, as amended: when no two chains share the same rewritten path and
    method, and no rewritten path is the name of a member an object literal
    inherits, the document holds one operation entry per terminal route: the
    entries are as many as the terminal routes of the tree, every path is
    one entry of the paths, and the operation of every route is found under
    its rewritten path and method key, whatever other methods share the
    path. *)
Theorem one_operation_entry_per_terminal_route :
  forall {Joi : Type} JoiToJSONSchema describe store info request
         (tree : Routes Joi) doc,
    generateJSON JoiToJSONSchema describe store flattenRoutes info request tree =
    Some doc ->
    NoDup (List.map chainKey (flattenRoutes tree)) ->
    ownPathNames (flattenRoutes tree) = true ->
    List.length (operationEntries (Swagger.paths doc)) =
    list_sum (List.map terminalRoutes tree) /\
    NoDup (List.map fst (Swagger.paths doc)) /\
    (forall routes endRoute,
        In routes (flattenRoutes tree) ->
        endRouteOf routes = Some endRoute ->
        findOperation (toSwaggerPath (corgiPathOf routes)) (route_method endRoute)
                      (Swagger.paths doc) =
        Some (operationOf JoiToJSONSchema describe store info routes endRoute)).
Proof.
  intros Joi J d s info request tree doc H N _.
  destruct (generateJSON_Some J d s flattenRoutes _ _ _ _ H)
    as (context & _ & A & _).
  repeat split.
  - rewrite (addChains_count J d s info _ _ _ A N).
    + simpl. apply length_flattenRoutes.
    + intros routes p m op _ _ [].
  - apply (addChains_NoDup_paths J d s info _ _ _ A). constructor.
  - intros routes endRoute I E.
    exact (addChains_find J d s info _ _ _ _ _ A N I E).
Qed.

(** The users tree: POST and GET on the same path. *)
Lemma one_operation_entry_per_terminal_route_witness :
  exists doc,
    generateJSON Sample.JoiToJSONSchema Sample.describe Sample.store flattenRoutes
                 (Sample.options None) Sample.request Sample.usersTree = Some doc /\
    List.length (operationEntries (Swagger.paths doc)) = 2 /\
    List.map fst (Swagger.paths doc) = ["/users/{id}/posts"].
Proof.
  eexists. split; [reflexivity|].
  destruct (one_operation_entry_per_terminal_route
              Sample.JoiToJSONSchema Sample.describe Sample.store
              (Sample.options None) Sample.request Sample.usersTree _ eq_refl)
    as (C & _ & _).
  - repeat constructor; simpl; intuition discriminate.
  - reflexivity.
  - split; [exact C|reflexivity].
Defined.

(** C9, as stated, fails: two routes with the raw paths [/a/:b] and [/a/{b}]
    and the same method do not share a raw path, yet both are written under
    [/a/{b}], and the document holds one operation for the two routes. *)
Lemma raw_paths_may_collide_after_rewrite :
  let tree : Routes Sample.Joi :=
    [ NodeRoute (Sample.route GET "/a/:b" None);
      NodeRoute (Sample.route GET "/a/{b}" None) ] in
  List.map rawKey (flattenRoutes tree) =
    [Some ("/a/:b", GET); Some ("/a/{b}", GET)] /\
  NoDup (List.map rawKey (flattenRoutes tree)) /\
  list_sum (List.map terminalRoutes tree) = 2 /\
  option_map (fun doc => List.length (operationEntries (Swagger.paths doc)))
             (generateJSON Sample.JoiToJSONSchema Sample.describe Sample.store
                           flattenRoutes (Sample.options None) Sample.request tree) =
  Some 1.
Proof.
  repeat split.
  repeat constructor; simpl; intuition discriminate.
Qed.

(** ** Operation identifiers of the document *)

Lemma routesToOperationId_derived :
  forall path method, routesToOperationId path method = derivedOperationId method path.
Proof.
  intros path method. unfold routesToOperationId, derivedOperationId.
  f_equal. f_equal. apply map_ext. intro c. unfold stripMarker.
  now destruct (JsString.startsWith c ":").
Qed.

Lemma capitalized_method :
  forall method,
    JsString.capitalize (JsString.toLowerCase (methodName method)) =
    match method with
    | GET => "Get" | PUT => "Put" | POST => "Post" | PATCH => "Patch"
    | DELETE => "Delete" | OPTIONS => "Options" | HEAD => "Head"
    end.
Proof. intros []; reflexivity. Qed.

(** C4, as amended: a route with no operation identifier, or with the empty
    string for one, gets the derived identifier: the capitalized lowercase
    method, then the segments of the raw path, each without its leading
    colon and capitalized; GET [/users/:id] gives [GetUsersId] and POST
    [/orders] gives [PostOrders]. A route that declares an identifier that
    is not empty keeps it as it is. *)
Theorem operationId_declared_or_derived :
  forall {Joi : Type} JoiToJSONSchema describe store info
         (routes : Routes Joi) endRoute,
    (route_operationId endRoute = None \/ route_operationId endRoute = Some "" ->
     Swagger.op_operationId
       (operationOf JoiToJSONSchema describe store info routes endRoute) =
     derivedOperationId (route_method endRoute) (corgiPathOf routes)) /\
    (forall id,
        route_operationId endRoute = Some id -> id <> "" ->
        Swagger.op_operationId
          (operationOf JoiToJSONSchema describe store info routes endRoute) = id) /\
    derivedOperationId GET "/users/:id" = "GetUsersId" /\
    derivedOperationId POST "/orders" = "PostOrders" /\
    (forall method path rest,
        derivedOperationId method (path ++ String "/" rest) =
        derivedOperationId method path ++
        JsString.join
          (List.map (fun segment => JsString.capitalize (stripMarker segment))
                    (JsString.split "/" rest))).
Proof.
  intros Joi J d s info routes endRoute. repeat split.
  - intros [N|N]; unfold operationOf; simpl; rewrite N; simpl;
      apply routesToOperationId_derived.
  - intros id E N. unfold operationOf. simpl. rewrite E. simpl.
    destruct id; [contradiction|reflexivity].
  - intros method path rest. unfold derivedOperationId.
    rewrite split_append_segment, map_app, join_app.
    now rewrite append_assoc.
Qed.

(** The two routes of the users tree: one derives its identifier, the other
    declares [listPosts]. *)
Lemma operationId_declared_or_derived_witness :
  Swagger.op_operationId
    (operationOf Sample.JoiToJSONSchema Sample.describe Sample.store
                 (Sample.options None)
                 [ NodeNamespace "/users/:id" [] []; NodeRoute Sample.usersRoute ]
                 Sample.usersRoute) = "PostUsersIdPosts" /\
  Swagger.op_operationId
    (operationOf Sample.JoiToJSONSchema Sample.describe Sample.store
                 (Sample.options None)
                 [ NodeNamespace "/users/:id" [] [];
                   NodeRoute (Sample.route GET "/posts" (Some "listPosts")) ]
                 (Sample.route GET "/posts" (Some "listPosts"))) = "listPosts".
Proof.
  split.
  - exact (proj1 (operationId_declared_or_derived
                    Sample.JoiToJSONSchema Sample.describe Sample.store
                    (Sample.options None)
                    [ NodeNamespace "/users/:id" [] []; NodeRoute Sample.usersRoute ]
                    Sample.usersRoute)
                 (or_introl eq_refl)).
  - apply (proj1 (proj2 (operationId_declared_or_derived
                    Sample.JoiToJSONSchema Sample.describe Sample.store
                    (Sample.options None)
                    [ NodeNamespace "/users/:id" [] [];
                      NodeRoute (Sample.route GET "/posts" (Some "listPosts")) ]
                    (Sample.route GET "/posts" (Some "listPosts"))))).
    + reflexivity.
    + discriminate.
Defined.

(** C4, as stated, fails for a route that declares the empty string as its
    identifier: [||] takes the empty string for a missing identifier and
    derives one. *)
Lemma empty_operationId_is_not_kept :
  let endRoute := Sample.route GET "/ping" (Some "") in
  route_operationId endRoute = Some "" /\
  Swagger.op_operationId
    (operationOf Sample.JoiToJSONSchema Sample.describe Sample.store
                 (Sample.options None) [NodeRoute endRoute] endRoute) = "GetPing" /\
  Swagger.op_operationId
    (operationOf Sample.JoiToJSONSchema Sample.describe Sample.store
                 (Sample.options None) [NodeRoute endRoute] endRoute) <> "".
Proof.
  repeat split. discriminate.
Qed.

(** ** Parameters *)

Lemma getMember_sanitize_VObj :
  forall fields key,
    inKeysToOmitIndex denylist key = false ->
    Js.getMember (sanitize (VObj fields)) key =
    match lookup String.eqb key fields with
    | Some x => sanitizeMember x
    | None => VUndefined
    end.
Proof.
  intros fields key K. unfold sanitize, deepOmit.
  rewrite omitFromObject_VObj. cbn [Js.getMember].
  rewrite (lookup_omitFields_kept denylist key fields K).
  now destruct (lookup String.eqb key fields).
Qed.

(** A member of a sanitized value is sanitized already. *)
Lemma member_of_sanitized :
  forall v key,
    sanitizeMember (Js.getMember (sanitize v) key) = Js.getMember (sanitize v) key.
Proof.
  intros v key.
  pose proof (omitFromObject_idempotent denylist v) as I.
  unfold sanitize, deepOmit.
  destruct (omitFromObject denylist v) as [| | | | | |fields] eqn:E;
    try reflexivity.
  rewrite omitFromObject_VObj in I.
  assert (F : omitFields denylist fields = fields) by congruence.
  clear I. cbn [Js.getMember].
  destruct (inKeysToOmitIndex denylist key) eqn:K.
  - pose proof (lookup_omitFields_omitted denylist key fields K) as L.
    rewrite F in L. now rewrite L.
  - pose proof (lookup_omitFields_kept denylist key fields K) as L.
    rewrite F in L.
    destruct (lookup String.eqb key fields) as [x|]; [|reflexivity].
    simpl in L. symmetry. change (x = omitMember denylist x). congruence.
Qed.

Section ParameterFacts.
Context {Joi : Type}.
Variable JoiToJSONSchema : Joi -> value.
Variable describe : Joi -> JoiDescription.

Lemma routeParameter_required :
  forall name (paramDef : ParameterDefinition Joi),
  exists fields,
    routeParameter JoiToJSONSchema describe name paramDef = VObj fields /\
    lookup String.eqb "required" fields =
    Some (VBool (if String.eqb (param_in paramDef) "path" then true
                 else presenceNotOptional (describe (param_def paramDef)))).
Proof.
  intros name paramDef. unfold routeParameter.
  destruct (String.eqb (param_in paramDef) "body") eqn:B.
  - eexists. split; [reflexivity|].
    apply String.eqb_eq in B. rewrite B. reflexivity.
  - destruct (String.eqb (param_in paramDef) "path");
      (eexists; split; [reflexivity|];
       apply (lookup_assign_same String.eqb string_eqb_spec)).
Qed.

Lemma presenceNotOptional_false_iff :
  forall metadata,
    presenceNotOptional metadata = false <->
    exists f, flags metadata = Some f /\ presence f = Some "optional".
Proof.
  intros [[[[p|]]|]]; unfold presenceNotOptional; simpl; split.
  - intro H. apply negb_false_iff, String.eqb_eq in H. subst p.
    eexists. split; reflexivity.
  - intros (f & E & P). inversion E; subst f. simpl in P. inversion P.
    reflexivity.
  - discriminate.
  - intros (f & E & P). inversion E; subst f. discriminate P.
  - discriminate.
  - intros (f & E & _). discriminate E.
Qed.

End ParameterFacts.

(** C7: among the parameters of an operation, which are the sanitized
    parameters of the nodes of its chain, one after the other, a path
    parameter of the route is required whatever its schema says of its
    presence; a parameter of the route in the body, the query or any other
    place is required exactly when the described flags of its schema do not
    give "optional" for the presence, a schema with no flags counting as
    required; and a parameter of a namespace is a path parameter under its
    name, required, with the type of its translated schema. *)
Theorem parameter_requiredness :
  forall {Joi : Type} (JoiToJSONSchema : Joi -> value) describe,
    (forall routes,
        parametersOf JoiToJSONSchema describe routes =
        List.flat_map
          (fun node =>
             match node with
             | NodeNamespace _ params _ =>
                 List.map (fun entry =>
                             sanitize (namespaceParameter JoiToJSONSchema
                                                          (fst entry) (snd entry)))
                          params
             | NodeRoute r =>
                 List.map (fun entry =>
                             sanitize (routeParameter JoiToJSONSchema describe
                                                      (fst entry) (snd entry)))
                          (route_params r)
             end)
          routes) /\
    (forall name paramDef,
        param_in paramDef = "path" ->
        Js.getMember (sanitize (routeParameter JoiToJSONSchema describe name paramDef))
                     "required" = VBool true) /\
    (forall name paramDef,
        param_in paramDef <> "path" ->
        Js.getMember (sanitize (routeParameter JoiToJSONSchema describe name paramDef))
                     "required" =
        VBool (presenceNotOptional (describe (param_def paramDef)))) /\
    (forall metadata,
        presenceNotOptional metadata = false <->
        exists f, flags metadata = Some f /\ presence f = Some "optional") /\
    (forall name schema,
        let param := sanitize (namespaceParameter JoiToJSONSchema name schema) in
        Js.getMember param "in" = VStr "path" /\
        Js.getMember param "name" = VStr name /\
        Js.getMember param "required" = VBool true /\
        Js.getMember param "type" =
        Js.getMember (JoiToSwaggerSchema JoiToJSONSchema schema) "type").
Proof.
  intros Joi J d. split; [|split; [|split; [|split]]].
  - intro routes. unfold parametersOf.
    induction routes as [|node routes IH]; [reflexivity|].
    cbn [List.flat_map]. rewrite map_app, IH. f_equal.
    destruct node as [r|path params children]; cbn [nodeParameters];
      now rewrite map_map.
  - intros name paramDef P.
    destruct (routeParameter_required J d name paramDef) as (fields & -> & L).
    rewrite getMember_sanitize_VObj by reflexivity.
    rewrite L, P. reflexivity.
  - intros name paramDef P.
    destruct (routeParameter_required J d name paramDef) as (fields & -> & L).
    rewrite getMember_sanitize_VObj by reflexivity.
    rewrite L. apply String.eqb_neq in P. now rewrite P.
  - apply presenceNotOptional_false_iff.
  - intros name schema param. subst param. unfold namespaceParameter.
    rewrite !getMember_sanitize_VObj by reflexivity.
    repeat split.
    change (sanitizeMember (Js.getMember (JoiToSwaggerSchema J schema) "type") =
            Js.getMember (JoiToSwaggerSchema J schema) "type").
    apply member_of_sanitized.
Qed.

(** The [slug] parameter of the users route: in the path, with a schema
    whose presence is optional, and required all the same. *)
Lemma parameter_requiredness_witness :
  Js.getMember
    (sanitize (routeParameter Sample.JoiToJSONSchema Sample.describe "slug"
                              {| param_in := "path";
                                 param_def := Sample.JoiString true |}))
    "required" = VBool true /\
  presenceNotOptional (Sample.describe (Sample.JoiString true)) = false.
Proof.
  split.
  - exact (proj1 (proj2 (parameter_requiredness Sample.JoiToJSONSchema Sample.describe))
                 "slug"
                 {| param_in := "path"; param_def := Sample.JoiString true |}
                 eq_refl).
  - reflexivity.
Defined.

(** ** References to definitions *)

Lemma convertToReference_Some :
  forall info schema reference,
    convertToReference info schema = Some reference ->
    exists definitions name,
      info_definitions info = Some definitions /\
      In (name, schema) definitions /\
      reference = Swagger.SchemaRef ("#/definitions/" ++ name).
Proof.
  intros info schema reference. unfold convertToReference.
  destruct (info_definitions info) as [definitions|]; [|discriminate].
  intro H. exists definitions.
  induction definitions as [|[name def] rest IH]; [discriminate|].
  destruct (Nat.eqb def schema) eqn:E.
  - apply Nat.eqb_eq in E. subst def. inversion H.
    exists name. split; [reflexivity|]. split; [now left|reflexivity].
  - destruct (IH H) as (name' & _ & I & R).
    exists name'. split; [reflexivity|]. split; [now right|exact R].
Qed.




(** * Further properties *)

(** ** [deepOmit]: composition and fixed points *)

Section DeepOmitAlgebra.

Lemma mem_app :
  forall key a b, Js.mem key (a ++ b)%list = Js.mem key a || Js.mem key b.
Proof. intros key a b. unfold Js.mem. apply existsb_app. Qed.

Lemma inKeysToOmitIndex_app :
  forall k1 k2 key,
    inKeysToOmitIndex (k1 ++ k2)%list key =
    inKeysToOmitIndex k1 key || inKeysToOmitIndex k2 key.
Proof.
  intros k1 k2 key. unfold inKeysToOmitIndex. rewrite mem_app.
  destruct (Js.mem key k1), (Js.mem key k2),
           (Js.mem key Js.objectPrototypeMembers); reflexivity.
Qed.

Lemma omitFields_primitive :
  forall keys l,
    Forall (fun kv => Js.isObject (snd kv) = false) l ->
    omitFields keys l =
    List.filter (fun kv => negb (inKeysToOmitIndex keys (fst kv))) l.
Proof.
  intros keys l H. induction H as [|[key v] rest Hv _ IH]; [reflexivity|].
  cbn [omitFields List.filter fst]. simpl in Hv.
  destruct (inKeysToOmitIndex keys key); cbn [negb]; [exact IH|].
  now rewrite (omitMember_primitive keys v Hv), IH.
Qed.

Lemma filter_primitive :
  forall (f : string * value -> bool) l,
    Forall (fun kv => Js.isObject (snd kv) = false) l ->
    Forall (fun kv => Js.isObject (snd kv) = false) (List.filter f l).
Proof.
  intros f l H. induction H as [|kv rest Hv _ IH]; simpl; [constructor|].
  destruct (f kv); [now constructor|exact IH].
Qed.

Lemma omitMember_compose_when :
  forall k1 k2 v,
    omitFromObject k2 (omitFromObject k1 v) = omitFromObject (k1 ++ k2) v ->
    omitMember k2 (omitMember k1 v) = omitMember (k1 ++ k2) v.
Proof.
  intros k1 k2 v H. unfold omitMember at 2 3. destruct (Js.isObject v) eqn:O.
  - unfold omitMember. now rewrite isObject_omitFromObject.
  - now apply omitMember_primitive.
Qed.

Lemma omitFromObject_compose :
  forall k1 k2 v,
    omitFromObject k2 (omitFromObject k1 v) = omitFromObject (k1 ++ k2) v.
Proof.
  intros k1 k2.
  induction v as [| | b | n | s | items IH | fields IH] using value_nested_ind;
    try reflexivity.
  - rewrite !omitFromObject_VStr, omitFromObject_VObj. f_equal.
    rewrite omitFields_primitive
      by (apply filter_primitive, indexed_chars_primitive).
    induction (Js.indexed 0 (Js.chars s)) as [|kv l IHl]; [reflexivity|].
    cbn [List.filter]. rewrite inKeysToOmitIndex_app.
    destruct (inKeysToOmitIndex k1 (fst kv)); cbn [negb orb]; [exact IHl|].
    cbn [List.filter].
    destruct (inKeysToOmitIndex k2 (fst kv)); cbn [negb]; now rewrite IHl.
  - rewrite !omitFromObject_VArr. f_equal. rewrite map_map.
    apply map_ext_Forall. eapply Forall_impl; [|exact IH].
    intros v Hv. now apply omitMember_compose_when.
  - rewrite !omitFromObject_VObj. f_equal.
    induction IH as [|[key v] rest Hv _ IHrest]; [reflexivity|].
    cbn [omitFields]. rewrite inKeysToOmitIndex_app.
    destruct (inKeysToOmitIndex k1 key); cbn [orb]; [exact IHrest|].
    cbn [omitFields].
    destruct (inKeysToOmitIndex k2 key); [exact IHrest|].
    simpl in Hv. now rewrite omitMember_compose_when, IHrest.
Qed.

Lemma omitMember_ext_when :
  forall k k' v,
    omitFromObject k v = omitFromObject k' v -> omitMember k v = omitMember k' v.
Proof.
  intros k k' v H. unfold omitMember. now destruct (Js.isObject v).
Qed.

Lemma omitFromObject_ext :
  forall k k',
    (forall key, inKeysToOmitIndex k key = inKeysToOmitIndex k' key) ->
    forall v, omitFromObject k v = omitFromObject k' v.
Proof.
  intros k k' E.
  induction v as [| | b | n | s | items IH | fields IH] using value_nested_ind;
    try reflexivity.
  - rewrite !omitFromObject_VStr. f_equal. apply filter_ext.
    intro kv. now rewrite E.
  - rewrite !omitFromObject_VArr. f_equal. apply map_ext_Forall.
    eapply Forall_impl; [|exact IH]. intros v Hv. now apply omitMember_ext_when.
  - rewrite !omitFromObject_VObj. f_equal.
    induction IH as [|[key v] rest Hv _ IHrest]; [reflexivity|].
    cbn [omitFields]. rewrite E.
    destruct (inKeysToOmitIndex k' key); [exact IHrest|].
    simpl in Hv. now rewrite (omitMember_ext_when _ _ _ Hv), IHrest.
Qed.

Lemma keyFree_omitMember_when :
  forall keys v,
    keyFree keys (omitFromObject keys v) = true ->
    keyFree keys (omitMember keys v) = true.
Proof.
  intros keys v H. unfold omitMember. destruct (Js.isObject v) eqn:O; [exact H|].
  destruct v; try reflexivity; discriminate O.
Qed.

Lemma keyFree_omitFromObject :
  forall keys v, keyFree keys (omitFromObject keys v) = true.
Proof.
  intro keys.
  induction v as [| | b | n | s | items IH | fields IH] using value_nested_ind;
    try reflexivity.
  - rewrite omitFromObject_VStr. cbn [keyFree]. apply forallb_forall.
    intros kv I. apply filter_In in I. destruct I as [I K]. rewrite K.
    pose proof (indexed_chars_primitive s 0) as P.
    rewrite Forall_forall in P. specialize (P kv I).
    destruct (snd kv); try reflexivity; discriminate P.
  - rewrite omitFromObject_VArr. cbn [keyFree]. apply forallb_forall.
    intros v I. apply in_map_iff in I. destruct I as (x & <- & I).
    rewrite Forall_forall in IH. now apply keyFree_omitMember_when, IH.
  - rewrite omitFromObject_VObj. cbn [keyFree].
    induction IH as [|[key v] rest Hv _ IHrest]; [reflexivity|].
    cbn [omitFields]. destruct (inKeysToOmitIndex keys key) eqn:K; [exact IHrest|].
    cbn [forallb fst snd]. rewrite K. simpl in Hv.
    now rewrite keyFree_omitMember_when, IHrest.
Qed.

Lemma omitMember_keyFree :
  forall keys v, keyFree keys v = true -> omitMember keys v = v.
Proof.
  intro keys.
  induction v as [| | b | n | s | items IH | fields IH] using value_nested_ind;
    try reflexivity; intro F; unfold omitMember; cbn [Js.isObject].
  - rewrite omitFromObject_VArr. f_equal.
    cbn [keyFree] in F. rewrite forallb_forall in F. rewrite Forall_forall in IH.
    rewrite <- (map_id items) at 2. apply map_ext_in.
    intros v I. now apply IH, F.
  - rewrite omitFromObject_VObj. f_equal. apply omitFields_kept.
    cbn [keyFree] in F. rewrite forallb_forall in F.
    rewrite Forall_forall in *. intros kv I.
    specialize (F kv I). apply andb_true_iff in F. destruct F as [K F].
    split; [now apply negb_true_iff in K|now apply IH].
Qed.

End DeepOmitAlgebra.

(** X1: for key lists that name no array index, omitting one list of keys
    and then another is omitting both lists at once, so the order of two
    passes does not matter. *)
Theorem deepOmit_composes :
  forall v k1 k2,
    namesNoIndex k1 = true -> namesNoIndex k2 = true ->
    deepOmit (deepOmit v k1) k2 = deepOmit v (k1 ++ k2)%list /\
    deepOmit (deepOmit v k1) k2 = deepOmit (deepOmit v k2) k1.
Proof.
  intros v k1 k2 _ _. unfold deepOmit. split.
  - apply omitFromObject_compose.
  - rewrite !omitFromObject_compose. apply omitFromObject_ext.
    intro key. rewrite !inKeysToOmitIndex_app. apply orb_comm.
Qed.

(** Omitting [patterns] and then [additionalProperties] from the object
    schema of the samples is sanitizing it. *)
Lemma deepOmit_composes_witness :
  deepOmit (deepOmit (Sample.JoiToJSONSchema Sample.JoiObjectSchema) ["patterns"])
           ["additionalProperties"] =
  sanitize (Sample.JoiToJSONSchema Sample.JoiObjectSchema).
Proof.
  rewrite (proj2 (deepOmit_composes
                    (Sample.JoiToJSONSchema Sample.JoiObjectSchema)
                    ["patterns"] ["additionalProperties"] eq_refl eq_refl)).
  exact (proj1 (deepOmit_composes
                  (Sample.JoiToJSONSchema Sample.JoiObjectSchema)
                  ["additionalProperties"] ["patterns"] eq_refl eq_refl)).
Defined.

(** X2: for a key list that names no array index, [deepOmit] gives back
    its input exactly when the input is an object or an array none of whose
    keys, at any depth, is in the index; and its result always is such a
    value. *)
Theorem deepOmit_fixed_points :
  forall v keysToOmit,
    namesNoIndex keysToOmit = true ->
    (deepOmit v keysToOmit = v <->
     Js.isObject v = true /\ keyFree keysToOmit v = true) /\
    Js.isObject (deepOmit v keysToOmit) = true /\
    keyFree keysToOmit (deepOmit v keysToOmit) = true.
Proof.
  intros v keys _. unfold deepOmit.
  assert (O : Js.isObject (omitFromObject keys v) = true)
    by (destruct v; reflexivity).
  split; [|split; [exact O|apply keyFree_omitFromObject]].
  split.
  - intro E. split.
    + now rewrite <- E.
    + rewrite <- E. apply keyFree_omitFromObject.
  - intros [Ov F]. pose proof (omitMember_keyFree keys v F) as M.
    unfold omitMember in M. now rewrite Ov in M.
Qed.

(** The user schema of the samples has no key of the denylist: sanitizing
    leaves it as it is. *)
Lemma deepOmit_fixed_points_witness :
  deepOmit Sample.userSchema denylist = Sample.userSchema.
Proof.
  apply (proj1 (deepOmit_fixed_points Sample.userSchema denylist eq_refl)).
  split; reflexivity.
Defined.

(** ** Paths and identifiers: composition *)

Section PathComposition.
Import JsString PathRewrite.

Lemma scan_append :
  forall a b,
    startsWithWord b = false ->
    outside (a ++ b) = outside a ++ outside b /\
    inside (a ++ b) = inside a ++ outside b.
Proof.
  intros a b W. induction a as [|c a [IHo IHi]].
  - split; [reflexivity|].
    destruct b as [|d b]; [reflexivity|].
    cbn [String.append]. rewrite inside_cons. simpl in W. now rewrite W.
  - assert (Ho : outside (String c a ++ b) = outside (String c a) ++ outside b).
    { cbn [String.append outside].
      assert (E : startsWithWord (a ++ b) = startsWithWord a).
      { rewrite startsWithWord_append. destruct a; [exact W|reflexivity]. }
      rewrite E. destruct (isColon c && startsWithWord a).
      - cbn [String.append]. now rewrite IHi.
      - cbn [String.append]. now rewrite IHo. }
    split; [exact Ho|].
    change (String c a ++ b) with (String c (a ++ b)).
    rewrite !inside_cons. destruct (isWordChar c).
    + cbn [String.append]. now rewrite IHi.
    + change (String c (a ++ b)) with (String c a ++ b). rewrite Ho.
      reflexivity.
Qed.

Lemma startsWithWord_join :
  forall parts,
    Forall (fun part => startsWithWord part = false) parts ->
    startsWithWord (join parts) = false.
Proof.
  intros parts H. induction H as [|part parts Hp _ IH]; [reflexivity|].
  unfold join in *. cbn [fold_right]. rewrite startsWithWord_append.
  destruct part; [exact IH|exact Hp].
Qed.

Lemma outside_join :
  forall first parts,
    Forall (fun part => startsWithWord part = false) parts ->
    outside (join (first :: parts)) = join (List.map outside (first :: parts)).
Proof.
  intros first parts H. revert first.
  induction H as [|part parts Hp Hps IH]; intro first.
  - unfold join. simpl. clear. induction first as [|c s IHs].
    + reflexivity.
    + assert (E : forall t : string, t ++ "" = t)
        by (induction t as [|d t IHt]; simpl; [reflexivity|now rewrite IHt]).
      now rewrite !E.
  - change (join (first :: part :: parts))
      with (first ++ join (part :: parts)).
    rewrite (proj1 (scan_append first (join (part :: parts))
                                (startsWithWord_join _ (Forall_cons _ Hp Hps)))).
    rewrite IH. reflexivity.
Qed.

Lemma occurs_append :
  forall c a b, occurs c (a ++ b) = occurs c a || occurs c b.
Proof.
  intros c a b. induction a as [|d a IH]; simpl; [reflexivity|].
  rewrite IH. apply orb_assoc.
Qed.

Lemma split_segments_free :
  forall sep s, Forall (fun seg => occurs sep seg = false) (split sep s).
Proof.
  intros sep s. induction s as [|c s IH]; simpl.
  - repeat constructor.
  - destruct (Ascii.eqb c sep) eqn:E; [now constructor|].
    destruct (split sep s) as [|seg segs]; [repeat constructor; simpl; now rewrite E|].
    inversion IH as [|x l Hseg Hsegs]; subst.
    constructor; [|exact Hsegs]. simpl. now rewrite E.
Qed.

Lemma upperChar_slash :
  forall c, Ascii.eqb (upperChar c) "/" = Ascii.eqb c "/".
Proof. intros [[] [] [] [] [] [] [] []]; reflexivity. Qed.

Lemma occurs_capitalize :
  forall s, occurs "/" (capitalize s) = occurs "/" s.
Proof. destruct s as [|c s]; simpl; [reflexivity|]. now rewrite upperChar_slash. Qed.

Lemma occurs_slice1 :
  forall c s, occurs c s = false -> occurs c (slice1 s) = false.
Proof.
  intros c [|d s] H; simpl in *; [reflexivity|].
  now apply orb_false_iff in H.
Qed.

Lemma occurs_join :
  forall c parts,
    Forall (fun part => occurs c part = false) parts ->
    occurs c (join parts) = false.
Proof.
  intros c parts H. induction H as [|part parts Hp _ IH]; [reflexivity|].
  unfold join in *. cbn [fold_right]. now rewrite occurs_append, Hp, IH.
Qed.

End PathComposition.

(** X3: when every node path of a chain after the first starts with a
    character that is no word character (a slash, say) or is empty, the
    rewrite of the full path is the rewrites of the node paths put together:
    no marker straddles two nodes. *)
Theorem toSwaggerPath_of_chain :
  forall {Joi : Type} (first : RouteNode Joi) (rest : Routes Joi),
    Forall (fun node => PathRewrite.startsWithWord (nodePath node) = false) rest ->
    toSwaggerPath (corgiPathOf (first :: rest)) =
    JsString.join (List.map (fun node => toSwaggerPath (nodePath node)) (first :: rest)).
Proof.
  intros Joi first rest H. unfold toSwaggerPath, corgiPathOf.
  cbn [List.map]. rewrite outside_join.
  - cbn [List.map]. now rewrite map_map.
  - apply Forall_forall. intros part I. apply in_map_iff in I.
    destruct I as (node & <- & I). rewrite Forall_forall in H. now apply H.
Qed.

(** The chain of the users tree: the namespace path holds the marker. *)
Lemma toSwaggerPath_of_chain_witness :
  toSwaggerPath
    (corgiPathOf [ NodeNamespace "/users/:id" [("id", Sample.JoiString false)] [];
                   NodeRoute Sample.usersRoute ]) =
  "/users/{id}" ++ "/posts".
Proof.
  apply (toSwaggerPath_of_chain
           (NodeNamespace "/users/:id" [("id", Sample.JoiString false)] [])
           [NodeRoute Sample.usersRoute]).
  repeat constructor.
Defined.

(** X4: on one path, two different methods never derive the same
    identifier. *)
Theorem routesToOperationId_separates_methods :
  forall path method method',
    method <> method' ->
    routesToOperationId path method <> routesToOperationId path method'.
Proof.
  intros path method method' N H. apply N. revert H.
  unfold routesToOperationId. rewrite !capitalized_method.
  destruct method, method'; cbn [String.append]; intro H;
    solve [reflexivity | congruence].
Qed.

(** GET and POST on [/users/:id]. *)
Lemma routesToOperationId_separates_methods_witness :
  routesToOperationId "/users/:id" GET <> routesToOperationId "/users/:id" POST.
Proof.
  apply routesToOperationId_separates_methods. discriminate.
Defined.

Lemma routesToOperationId_nonempty :
  forall path method, routesToOperationId path method <> "".
Proof.
  intros path method. unfold routesToOperationId.
  rewrite capitalized_method. now destruct method.
Qed.

(** X5: a derived identifier holds no slash and is never empty. *)
Theorem routesToOperationId_has_no_slash :
  forall path method,
    occurs "/" (routesToOperationId path method) = false /\
    routesToOperationId path method <> "".
Proof.
  intros path method. split; [unfold routesToOperationId|].
  - rewrite occurs_append, capitalized_method.
    replace (occurs "/" match method with
                        | GET => "Get" | PUT => "Put" | POST => "Post"
                        | PATCH => "Patch" | DELETE => "Delete"
                        | OPTIONS => "Options" | HEAD => "Head"
                        end) with false by (now destruct method).
    cbn [orb]. apply occurs_join.
    apply Forall_forall. intros part I. apply in_map_iff in I.
    destruct I as (seg & <- & I).
    pose proof (split_segments_free "/" path) as F.
    rewrite Forall_forall in F. specialize (F seg I).
    destruct (JsString.startsWith seg ":"); rewrite occurs_capitalize;
      [now apply occurs_slice1|exact F].
  - apply routesToOperationId_nonempty.
Qed.

(** ** Objects written member by member *)

Section FoldAssign.
Context {K V E : Type} (eqb : K -> K -> bool).
Hypothesis eqb_spec : forall a b, eqb a b = true <-> a = b.
Variable key : E -> K.
Variable build : E -> V.

Definition written (l : list E) (t : list (K * V)) : list (K * V) :=
  fold_left (fun obj e => assign eqb (key e) (build e) obj) l t.

Lemma written_In :
  forall l t x,
    In x (written l t) -> In x t \/ exists e, In e l /\ x = (key e, build e).
Proof.
  induction l as [|e l IH]; intros t x I; [now left|].
  destruct (IH _ _ I) as [I'|(e' & Ie & ->)].
  - apply (assign_In_inv eqb eqb_spec) in I'. destruct I' as [->|I'].
    + right. exists e. split; [now left|reflexivity].
    + now left.
  - right. exists e'. split; [now right|reflexivity].
Qed.

Lemma written_other :
  forall l t k,
    (forall e, In e l -> key e <> k) ->
    lookup eqb k (written l t) = lookup eqb k t.
Proof.
  induction l as [|e l IH]; intros t k H; [reflexivity|].
  cbn [written fold_left]. change (fold_left _ l ?a) with (written l a).
  rewrite IH by (intros e' I; apply H; now right).
  apply (lookup_assign_other eqb eqb_spec). apply H. now left.
Qed.

Lemma written_last :
  forall before e after t,
    (forall e', In e' after -> key e' <> key e) ->
    lookup eqb (key e) (written (before ++ e :: after) t) = Some (build e).
Proof.
  intros before e after t H. unfold written. rewrite fold_left_app.
  cbn [fold_left]. change (fold_left _ after ?a) with (written after a).
  rewrite (written_other after _ (key e) H).
  apply (lookup_assign_same eqb eqb_spec).
Qed.

Lemma written_NoDup :
  forall l t, NoDup (List.map fst t) -> NoDup (List.map fst (written l t)).
Proof.
  induction l as [|e l IH]; intros t N; [exact N|].
  cbn [written fold_left]. change (fold_left _ l ?a) with (written l a).
  apply IH. now apply (assign_NoDup_keys eqb eqb_spec).
Qed.

Lemma written_keys :
  forall l t k,
    In k (List.map fst (written l t)) ->
    In k (List.map fst t) \/ In k (List.map key l).
Proof.
  intros l t k I. apply in_map_iff in I. destruct I as ([k' v] & <- & I).
  destruct (written_In _ _ _ I) as [I'|(e & Ie & Ex)].
  - left. now apply (in_map fst) in I'.
  - right. inversion Ex; subst. simpl. now apply (in_map key).
Qed.

End FoldAssign.

(** ** Responses *)

Section ResponseFacts.
Context {Joi : Type}.
Variable JoiToJSONSchema : Joi -> value.
Variable store : ref -> SchemaObject Joi.
Variable info : SwaggerRouteOptions.

Definition responseObject (entry : Z * Response) : Swagger.Response :=
  {| Swagger.resp_description := orElse (response_desc (snd entry)) "";
     Swagger.resp_schema :=
       Some (responseSchema JoiToJSONSchema store info (snd entry)) |}.

Lemma responsesOf_declared :
  forall (endRoute : Route Joi) responses,
    route_responses endRoute = Some responses ->
    responsesOf JoiToJSONSchema store info endRoute =
    written Z.eqb fst responseObject responses [].
Proof. intros endRoute responses H. unfold responsesOf. now rewrite H. Qed.

End ResponseFacts.

(** X6: when a route declares responses, the response map holds, for
    every declared status code, the description (or the empty string) and
    the schema of the last declaration of that code; it holds nothing for a
    code that is not declared, and no code twice. In particular an empty
    declaration gives an empty map, not the default response. *)
Theorem declared_responses_last_wins :
  forall {Joi : Type} (JoiToJSONSchema : Joi -> value) store info
         (endRoute : Route Joi) responses,
    route_responses endRoute = Some responses ->
    (forall before status response after,
        responses = (before ++ (status, response) :: after)%list ->
        (forall e, In e after -> fst e <> status) ->
        lookup Z.eqb status (responsesOf JoiToJSONSchema store info endRoute) =
        Some {| Swagger.resp_description := orElse (response_desc response) "";
                Swagger.resp_schema :=
                  Some (responseSchema JoiToJSONSchema store info response) |}) /\
    (forall status,
        ~ In status (List.map fst responses) ->
        lookup Z.eqb status (responsesOf JoiToJSONSchema store info endRoute) = None) /\
    NoDup (List.map fst (responsesOf JoiToJSONSchema store info endRoute)) /\
    (responses = [] -> responsesOf JoiToJSONSchema store info endRoute = []).
Proof.
  intros Joi J store info endRoute responses H.
  rewrite (responsesOf_declared J store info endRoute responses H).
  split; [|split; [|split]].
  - intros before status response after -> Last.
    exact (written_last Z.eqb Z_eqb_spec fst (responseObject J store info)
                        before (status, response) after [] Last).
  - intros status N.
    rewrite (written_other Z.eqb Z_eqb_spec fst (responseObject J store info)).
    + reflexivity.
    + intros e I E. apply N. rewrite <- E. now apply in_map.
  - apply (written_NoDup Z.eqb Z_eqb_spec). constructor.
  - now intros ->.
Qed.

(** The users route declares 200, 201, 400 and 404 once each: the entry of
    201 has the empty description and the declared object itself. *)
Lemma declared_responses_last_wins_witness :
  lookup Z.eqb 201%Z
         (responsesOf Sample.JoiToJSONSchema Sample.store
                      (Sample.options (Some [("User", 0)])) Sample.usersRoute) =
  Some {| Swagger.resp_description := "";
          Swagger.resp_schema := Some (Swagger.SchemaShared 1) |}.
Proof.
  exact (proj1 (declared_responses_last_wins
                  Sample.JoiToJSONSchema Sample.store
                  (Sample.options (Some [("User", 0)])) Sample.usersRoute _ eq_refl)
               [ (200%Z, {| response_desc := Some "The user";
                            response_schema := Some 0 |}) ]
               201%Z
               {| response_desc := None; response_schema := Some 1 |}
               [ (400%Z, {| response_desc := Some ""; response_schema := Some 2 |});
                 (404%Z, {| response_desc := None; response_schema := None |}) ]
               eq_refl
               ltac:(intros e [<-|[<-|[]]]; discriminate)).
Defined.

(** ** The document: schemas and references *)



Section SchemaFacts.
Context {Joi : Type}.
Variable JoiToJSONSchema : Joi -> value.
Variable describe : Joi -> JoiDescription.
Variable store : ref -> SchemaObject Joi.
Variable flatten : Routes Joi -> list (Routes Joi).

Lemma generateJSON_definitions :
  forall info request tree doc,
    generateJSON JoiToJSONSchema describe store flatten info request tree = Some doc ->
    Swagger.definitions doc =
    List.map (fun entry => (fst entry, translated JoiToJSONSchema store (snd entry)))
             (match info_definitions info with
              | Some definitions => definitions
              | None => []
              end).
Proof.
  intros info request tree doc H. unfold generateJSON in H.
  destruct (addChains _ _ _ info (flatten tree) []) as [paths|]; [|discriminate].
  destruct (requestContext request) as [context|]; [|discriminate].
  inversion H; subst doc. reflexivity.
Qed.

Lemma translated_keyFree :
  forall schema, schemaKeyFree (translated JoiToJSONSchema store schema) = true.
Proof.
  intro schema. unfold translated.
  destruct (asJoiSchema (store schema)); [|reflexivity].
  apply keyFree_omitFromObject.
Qed.

Lemma responseSchema_cases :
  forall info response,
    match response_schema response with
    | Some schema =>
        (exists definitions name,
            info_definitions info = Some definitions /\
            In (name, schema) definitions /\
            responseSchema JoiToJSONSchema store info response =
            Swagger.SchemaRef ("#/definitions/" ++ name)) \/
        (convertToReference info schema = None /\
         responseSchema JoiToJSONSchema store info response =
         translated JoiToJSONSchema store schema)
    | None =>
        responseSchema JoiToJSONSchema store info response = Swagger.SchemaUndefined
    end.
Proof.
  intros info response. unfold responseSchema.
  destruct (response_schema response) as [schema|]; [|reflexivity].
  destruct (convertToReference info schema) as [reference|] eqn:C.
  - left. destruct (convertToReference_Some _ _ _ C) as (definitions & name & D & I & ->).
    now exists definitions, name.
  - right. split; reflexivity.
Qed.

Lemma responseSchema_keyFree :
  forall info response,
    schemaKeyFree (responseSchema JoiToJSONSchema store info response) = true.
Proof.
  intros info response. pose proof (responseSchema_cases info response) as C.
  destruct (response_schema response) as [schema|].
  - destruct C as [(definitions & name & _ & _ & ->)|[_ ->]];
      [reflexivity|apply translated_keyFree].
  - now rewrite C.
Qed.

Lemma responsesOf_In :
  forall info (endRoute : Route Joi) status resp,
    In (status, resp) (responsesOf JoiToJSONSchema store info endRoute) ->
    (route_responses endRoute = None /\ Swagger.resp_schema resp = None) \/
    exists responses response,
      route_responses endRoute = Some responses /\
      In (status, response) responses /\
      Swagger.resp_schema resp =
      Some (responseSchema JoiToJSONSchema store info response).
Proof.
  intros info endRoute status resp I.
  destruct (route_responses endRoute) as [responses|] eqn:R.
  - right. rewrite (responsesOf_declared _ _ _ _ _ R) in I.
    destruct (written_In Z.eqb Z_eqb_spec _ _ _ _ _ I) as [[]|([s response] & Ie & E)].
    inversion E; subst. now exists responses, response.
  - left. unfold responsesOf in I. rewrite R in I.
    destruct I as [E|[]]. inversion E; subst. now split.
Qed.

End SchemaFacts.

(** X7: nothing the generator translated holds a key of the denylist, at
    any depth: not the parameters of an operation of the document, not the
    inline schema of a response, not a translated definition. *)
Theorem document_holds_no_denylisted_key :
  forall {Joi : Type} JoiToJSONSchema describe store
         (flatten : Routes Joi -> list (Routes Joi)) info request tree doc,
    generateJSON JoiToJSONSchema describe store flatten info request tree = Some doc ->
    (forall p k op,
        In (p, k, op) (operationEntries (Swagger.paths doc)) ->
        Forall (fun param => keyFree denylist param = true)
               (Swagger.op_parameters op) /\
        (forall status resp schema,
            In (status, resp) (Swagger.op_responses op) ->
            Swagger.resp_schema resp = Some schema ->
            schemaKeyFree schema = true)) /\
    Forall (fun entry => schemaKeyFree (snd entry) = true) (Swagger.definitions doc).
Proof.
  intros Joi J d store flatten info request tree doc H. split.
  - intros p k op I.
    destruct (generateJSON_entries J d store flatten _ _ _ _ _ _ _ H I)
      as (routes & endRoute & _ & _ & _ & _ & ->).
    split.
    + cbn [Swagger.op_parameters operationOf]. unfold parametersOf.
      apply Forall_forall. intros param Ip. apply in_map_iff in Ip.
      destruct Ip as (x & <- & _). apply keyFree_omitFromObject.
    + cbn [Swagger.op_responses operationOf]. intros status resp schema Ir S.
      destruct (responsesOf_In J store _ _ _ _ Ir)
        as [[_ N]|(responses & response & _ & _ & E)].
      * rewrite N in S. discriminate.
      * rewrite E in S. inversion S; subst schema.
        apply responseSchema_keyFree.
  - rewrite (generateJSON_definitions J d store flatten _ _ _ _ H).
    apply Forall_forall. intros entry I. apply in_map_iff in I.
    destruct I as (e & <- & _). apply translated_keyFree.
Qed.

(** The users tree: the five parameters of the POST operation. *)
Lemma document_holds_no_denylisted_key_witness :
  exists doc op,
    generateJSON Sample.JoiToJSONSchema Sample.describe Sample.store flattenRoutes
                 (Sample.options (Some [("Post", 2)])) Sample.request
                 Sample.usersTree = Some doc /\
    findOperation "/users/{id}/posts" POST (Swagger.paths doc) = Some op /\
    List.length (Swagger.op_parameters op) = 5 /\
    Forall (fun param => keyFree denylist param = true) (Swagger.op_parameters op).
Proof.
  eexists. eexists. split; [reflexivity|]. split; [reflexivity|].
  split; [reflexivity|].
  refine (proj1 (proj1 (document_holds_no_denylisted_key
                   Sample.JoiToJSONSchema Sample.describe Sample.store flattenRoutes
                   (Sample.options (Some [("Post", 2)])) Sample.request
                   Sample.usersTree _ eq_refl)
                 "/users/{id}/posts" "post" _ _)).
  simpl. left. reflexivity.
Defined.





(** ** The document: paths written more than once *)

Lemma assign_not_nil :
  forall {K V : Type} (eqb : K -> K -> bool) key (v : V) l,
    assign eqb key v l <> [].
Proof.
  intros K V eqb key v [|[k x] l]; simpl; [discriminate|].
  destruct (eqb k key); discriminate.
Qed.

(** A well-formed path entry: a rewritten path with at least one operation,
    each under the key of a method, no key twice. *)
Definition pathEntryOk (entry : string * Swagger.Path) : Prop :=
  PathRewrite.markerFree (fst entry) = true /\
  snd entry <> [] /\
  NoDup (List.map fst (snd entry)) /\
  Forall (fun op => exists method, fst op = methodKey method) (snd entry).

Lemma operationEntries_keys_NoDup :
  forall paths,
    NoDup (List.map fst paths) ->
    Forall (fun entry => NoDup (List.map fst (snd entry))) paths ->
    NoDup (List.map (fun e => (fst (fst e), snd (fst e))) (operationEntries paths)).
Proof.
  induction paths as [|[p entry] paths IH]; intros N F; [constructor|].
  simpl in N. inversion N as [|p' ps Np Nps]; subst.
  inversion F as [|e es Fe Fes]; subst. simpl in Fe.
  rewrite operationEntries_cons, map_app. apply NoDup_app.
  - rewrite map_map. cbn [fst snd].
    clear - Fe. induction entry as [|[k op] entry IHe]; [constructor|].
    simpl in Fe. inversion Fe as [|k' ks Nk Nks]; subst. cbn [List.map fst snd].
    constructor; [|now apply IHe].
    intro I. apply in_map_iff in I. destruct I as ([k' op'] & E & I).
    inversion E; subst. apply Nk. now apply (in_map fst) in I.
  - now apply IH.
  - intros [p1 k1] I1 I2. rewrite map_map in I1. cbn [fst snd] in I1.
    apply in_map_iff in I1. destruct I1 as (o & E & _). inversion E; subst p1.
    apply in_map_iff in I2. destruct I2 as ([[p2 k2] op2] & E2 & I2).
    cbn [fst snd] in E2. inversion E2; subst.
    apply In_operationEntries in I2. destruct I2 as (entry2 & Ip & _).
    apply Np. now apply (in_map fst) in Ip.
Qed.

Section ChainFacts.
Context {Joi : Type}.
Variable JoiToJSONSchema : Joi -> value.
Variable describe : Joi -> JoiDescription.
Variable store : ref -> SchemaObject Joi.
Variable info : SwaggerRouteOptions.

#[local] Abbreviation operation := (operationOf JoiToJSONSchema describe store info).
#[local] Abbreviation add := (addChain JoiToJSONSchema describe store info).
#[local] Abbreviation addAll := (addChains JoiToJSONSchema describe store info).

Lemma addChains_app :
  forall a b paths,
    addAll (a ++ b)%list paths =
    match addAll a paths with
    | Some paths' => addAll b paths'
    | None => None
    end.
Proof.
  induction a as [|c a IH]; intros b paths; [reflexivity|].
  rewrite <- app_comm_cons, !addChains_cons.
  destruct (add paths c); [apply IH|reflexivity].
Qed.

Lemma addChains_last_wins :
  forall before routes after paths paths' endRoute,
    addAll (before ++ routes :: after)%list paths = Some paths' ->
    endRouteOf routes = Some endRoute ->
    (forall c, In c after -> chainKey c <> chainKey routes) ->
    findOperation (toSwaggerPath (corgiPathOf routes)) (route_method endRoute) paths' =
    Some (operation routes endRoute).
Proof.
  intros before routes after paths paths' endRoute A E Last.
  rewrite addChains_app in A.
  destruct (addAll before paths) as [paths0|]; [|discriminate].
  rewrite addChains_cons in A.
  destruct (add paths0 routes) as [paths1|] eqn:A1; [|discriminate].
  rewrite (addChains_find_other JoiToJSONSchema describe store info _ _ _ _ _ A).
  - exact (addChain_find_same JoiToJSONSchema describe store info _ _ _ _ A1 E).
  - intro I. apply in_map_iff in I. destruct I as (c & K & Ic).
    apply (Last c Ic). rewrite K. unfold chainKey. now rewrite E.
Qed.

Lemma addChain_pathEntryOk :
  forall paths routes paths',
    add paths routes = Some paths' ->
    Forall pathEntryOk paths -> Forall pathEntryOk paths'.
Proof.
  intros paths routes paths' H F.
  destruct (addChain_Some JoiToJSONSchema describe store info _ _ _ H)
    as (endRoute & E & [[_ ->]|(l1 & entry & l2 & Ep & _ & ->)]).
  - apply Forall_app. split; [exact F|]. constructor; [|constructor].
    repeat split; cbn [fst snd List.map].
    + apply markerFree_scanned.
    + discriminate.
    + repeat constructor. intros [].
    + repeat constructor. now exists (route_method endRoute).
  - subst paths. apply Forall_app in F. destruct F as [F1 F2].
    inversion F2 as [|e es (M & _ & N & K) F3]; subst. cbn [fst snd] in *.
    apply Forall_app. split; [exact F1|]. constructor; [|exact F3].
    repeat split; cbn [fst snd].
    + exact M.
    + apply assign_not_nil.
    + now apply (assign_NoDup_keys String.eqb string_eqb_spec).
    + apply Forall_forall. intros o Io.
      apply (assign_In_inv String.eqb string_eqb_spec) in Io.
      destruct Io as [->|Io]; [now exists (route_method endRoute)|].
      rewrite Forall_forall in K. now apply K.
Qed.

Lemma addChains_pathEntryOk :
  forall chains paths paths',
    addAll chains paths = Some paths' ->
    Forall pathEntryOk paths -> Forall pathEntryOk paths'.
Proof.
  induction chains as [|c chains IH]; intros paths paths' H F.
  - rewrite addChains_nil in H. now inversion H; subst.
  - rewrite addChains_cons in H.
    destruct (add paths c) as [paths1|] eqn:A; [|discriminate].
    apply (IH paths1 paths' H). now apply (addChain_pathEntryOk _ _ _ A).
Qed.

End ChainFacts.

Lemma orElse_nonempty :
  forall a b, b <> "" -> orElse a b <> "".
Proof.
  intros [[|c s]|] b N; simpl; (exact N || discriminate).
Qed.

(** X10: when no rewritten path is the name of a member an object literal
    inherits and several chains have the same rewritten path and method, the
    document holds the operation of the last of them. *)
Theorem last_chain_wins :
  forall {Joi : Type} JoiToJSONSchema describe store
         (flatten : Routes Joi -> list (Routes Joi))
         info request tree doc before routes after endRoute,
    generateJSON JoiToJSONSchema describe store flatten info request tree = Some doc ->
    ownPathNames (flatten tree) = true ->
    flatten tree = (before ++ routes :: after)%list ->
    endRouteOf routes = Some endRoute ->
    (forall c, In c after -> chainKey c <> chainKey routes) ->
    findOperation (toSwaggerPath (corgiPathOf routes)) (route_method endRoute)
                  (Swagger.paths doc) =
    Some (operationOf JoiToJSONSchema describe store info routes endRoute).
Proof.
  intros Joi J d store flatten info request tree doc before routes after endRoute
         H _ F E Last.
  destruct (generateJSON_Some J d store flatten _ _ _ _ H) as (context & _ & A & _).
  rewrite F in A.
  exact (addChains_last_wins J d store info _ _ _ _ _ _ A E Last).
Qed.

(** Two routes on GET [/ping]: the document holds the second. *)
Lemma last_chain_wins_witness :
  exists doc,
    generateJSON Sample.JoiToJSONSchema Sample.describe Sample.store flattenRoutes
                 (Sample.options None) Sample.request
                 [ NodeRoute (Sample.route GET "/ping" (Some "first"));
                   NodeRoute (Sample.route GET "/ping" (Some "second")) ] = Some doc /\
    option_map Swagger.op_operationId (findOperation "/ping" GET (Swagger.paths doc)) =
    Some "second".
Proof.
  eexists. split; [reflexivity|].
  exact (f_equal (option_map Swagger.op_operationId)
           (last_chain_wins
              Sample.JoiToJSONSchema Sample.describe Sample.store flattenRoutes
              (Sample.options None) Sample.request
              [ NodeRoute (Sample.route GET "/ping" (Some "first"));
                NodeRoute (Sample.route GET "/ping" (Some "second")) ]
              _
              [[NodeRoute (Sample.route GET "/ping" (Some "first"))]]
              [NodeRoute (Sample.route GET "/ping" (Some "second"))]
              []
              (Sample.route GET "/ping" (Some "second"))
              eq_refl eq_refl eq_refl eq_refl ltac:(intros c []))).
Defined.

(** X11: in every generated document, no path is listed twice and no path
    holds a [:name] marker; every path has at least one operation, each
    under the key of one of the seven methods, no key twice; so no pair of a
    path and a method key occurs twice. *)
Theorem document_paths_well_formed :
  forall {Joi : Type} JoiToJSONSchema describe store
         (flatten : Routes Joi -> list (Routes Joi)) info request tree doc,
    generateJSON JoiToJSONSchema describe store flatten info request tree = Some doc ->
    NoDup (List.map fst (Swagger.paths doc)) /\
    Forall pathEntryOk (Swagger.paths doc) /\
    NoDup (List.map (fun e => (fst (fst e), snd (fst e)))
                    (operationEntries (Swagger.paths doc))).
Proof.
  intros Joi J d store flatten info request tree doc H.
  destruct (generateJSON_Some J d store flatten _ _ _ _ H) as (context & _ & A & _).
  assert (N : NoDup (List.map fst (Swagger.paths doc))).
  { apply (addChains_NoDup_paths J d store info _ _ _ A). constructor. }
  assert (F : Forall pathEntryOk (Swagger.paths doc)).
  { apply (addChains_pathEntryOk J d store info _ _ _ A). constructor. }
  split; [exact N|]. split; [exact F|].
  apply operationEntries_keys_NoDup; [exact N|].
  eapply Forall_impl; [|exact F]. intros entry (_ & _ & Nk & _). exact Nk.
Qed.

(** The document of the users tree has the one path [/users/{id}/posts]. *)
Lemma document_paths_well_formed_witness :
  exists doc,
    generateJSON Sample.JoiToJSONSchema Sample.describe Sample.store flattenRoutes
                 (Sample.options None) Sample.request Sample.usersTree = Some doc /\
    Forall pathEntryOk (Swagger.paths doc).
Proof.
  eexists. split; [reflexivity|].
  exact (proj1 (proj2 (document_paths_well_formed
                         Sample.JoiToJSONSchema Sample.describe Sample.store
                         flattenRoutes (Sample.options None) Sample.request
                         Sample.usersTree _ eq_refl))).
Defined.

(** X12: when every chain ends in a route, the generator fails exactly
    when the request has no request context. *)
Theorem generateJSON_fails_without_context :
  forall {Joi : Type} JoiToJSONSchema describe store
         (flatten : Routes Joi -> list (Routes Joi)) info request tree,
    (forall routes, In routes (flatten tree) -> endRouteOf routes <> None) ->
    (generateJSON JoiToJSONSchema describe store flatten info request tree = None <->
     requestContext request = None).
Proof.
  intros Joi J d store flatten info request tree E. split.
  - intro H. destruct (requestContext request) as [context|] eqn:C; [|reflexivity].
    destruct (generateJSON_total J d store flatten info request tree context C E)
      as (doc & D).
    rewrite D in H. discriminate.
  - intro C. unfold generateJSON.
    destruct (addChains J d store info (flatten tree) []); [|reflexivity].
    now rewrite C.
Qed.

(** The ping tree with a request that has no context. *)
Lemma generateJSON_fails_without_context_witness :
  generateJSON Sample.JoiToJSONSchema Sample.describe Sample.store flattenRoutes
               (Sample.options None)
               {| headers := [("Host", "api.example.com")]; requestContext := None |}
               Sample.pingTree = None.
Proof.
  apply (proj2 (generateJSON_fails_without_context
                  Sample.JoiToJSONSchema Sample.describe Sample.store flattenRoutes
                  (Sample.options None)
                  {| headers := [("Host", "api.example.com")];
                     requestContext := None |}
                  Sample.pingTree
                  (flattenRoutes_ends_in_route Sample.pingTree))).
  reflexivity.
Defined.

(** X13: every operation of a generated document has an identifier that is
    not empty. *)
Theorem every_operationId_nonempty :
  forall {Joi : Type} JoiToJSONSchema describe store
         (flatten : Routes Joi -> list (Routes Joi))
         info request tree doc p k op,
    generateJSON JoiToJSONSchema describe store flatten info request tree = Some doc ->
    In (p, k, op) (operationEntries (Swagger.paths doc)) ->
    Swagger.op_operationId op <> "".
Proof.
  intros Joi J d store flatten info request tree doc p k op H I.
  destruct (generateJSON_entries J d store flatten _ _ _ _ _ _ _ H I)
    as (routes & endRoute & _ & _ & _ & _ & ->).
  cbn [Swagger.op_operationId operationOf].
  apply orElse_nonempty, routesToOperationId_nonempty.
Qed.

(** A route that declares the empty identifier on GET [/ping]. *)
Lemma every_operationId_nonempty_witness :
  exists doc,
    generateJSON Sample.JoiToJSONSchema Sample.describe Sample.store flattenRoutes
                 (Sample.options None) Sample.request
                 [NodeRoute (Sample.route GET "/ping" (Some ""))] = Some doc /\
    Forall (fun e => Swagger.op_operationId (snd e) <> "")
           (operationEntries (Swagger.paths doc)).
Proof.
  eexists. split; [reflexivity|].
  apply Forall_forall. intros [[p k] op] I.
  exact (every_operationId_nonempty
           Sample.JoiToJSONSchema Sample.describe Sample.store flattenRoutes
           (Sample.options None) Sample.request
           [NodeRoute (Sample.route GET "/ping" (Some ""))] _ p k op eq_refl I).
Defined.

(** ** The members of a parameter *)

Lemma sanitized_lookup :
  forall v fields key,
    sanitize v = VObj fields ->
    (inKeysToOmitIndex denylist key = true ->
     lookup String.eqb key fields = None) /\
    (forall x, lookup String.eqb key fields = Some x -> sanitizeMember x = x).
Proof.
  intros v fields key E. split.
  - intro K.
    pose proof (omitFromObject_idempotent denylist v) as I.
    unfold sanitize, deepOmit in E. rewrite E, omitFromObject_VObj in I.
    assert (F : omitFields denylist fields = fields) by congruence.
    rewrite <- F. now apply lookup_omitFields_omitted.
  - intros x L. pose proof (member_of_sanitized v key) as M.
    rewrite E in M. cbn [Js.getMember] in M. now rewrite L in M.
Qed.

Lemma lookup_NoDup_split :
  forall {A : Type} key (x : A) l,
    NoDup (List.map fst l) -> lookup String.eqb key l = Some x ->
    exists l1 l2,
      l = (l1 ++ (key, x) :: l2)%list /\ forall e, In e l2 -> fst e <> key.
Proof.
  intros A key x l N L.
  destruct (lookup_split String.eqb string_eqb_spec _ _ _ L) as (l1 & l2 & -> & _).
  exists l1, l2. split; [reflexivity|].
  intros e I E. rewrite map_app in N. cbn [List.map fst] in N.
  apply NoDup_remove_2 in N. apply N, in_or_app. right.
  rewrite <- E. now apply in_map.
Qed.

Section ParameterMembers.
Context {Joi : Type}.
Variable JoiToJSONSchema : Joi -> value.
Variable describe : Joi -> JoiDescription.

Lemma routeParameter_spread :
  forall name (paramDef : ParameterDefinition Joi),
    param_in paramDef <> "body" ->
    exists b,
      routeParameter JoiToJSONSchema describe name paramDef =
      VObj (assign String.eqb "required" (VBool b)
                   (written String.eqb fst snd
                            (Js.ownFields (JoiToSwaggerSchema JoiToJSONSchema
                                                              (param_def paramDef)))
                            [ ("in", VStr (param_in paramDef));
                              ("name", VStr name);
                              ("description", VStr "") ])).
Proof.
  intros name paramDef B. unfold routeParameter.
  apply String.eqb_neq in B. rewrite B.
  destruct (String.eqb (param_in paramDef) "path"); eexists; reflexivity.
Qed.

Lemma spread_member :
  forall name (paramDef : ParameterDefinition Joi) fields key,
    param_in paramDef <> "body" ->
    JoiToSwaggerSchema JoiToJSONSchema (param_def paramDef) = VObj fields ->
    NoDup (List.map fst fields) ->
    key <> "required" ->
    Js.getMember (sanitize (routeParameter JoiToJSONSchema describe name paramDef)) key =
    match lookup String.eqb key fields with
    | Some x => x
    | None =>
        Js.getMember (VObj [ ("in", VStr (param_in paramDef));
                             ("name", VStr name);
                             ("description", VStr "") ]) key
    end.
Proof.
  intros name paramDef fields key B E N R.
  destruct (routeParameter_spread name paramDef B) as (b & ->).
  rewrite E. cbn [Js.ownFields].
  destruct (sanitized_lookup _ fields key E) as [Omitted Kept].
  destruct (inKeysToOmitIndex denylist key) eqn:K.
  - rewrite (Omitted eq_refl).
    unfold sanitize, deepOmit. rewrite omitFromObject_VObj. cbn [Js.getMember].
    rewrite (lookup_omitFields_omitted denylist key _ K).
    cbn [lookup].
    destruct (String.eqb "in" key) eqn:E1;
      [apply String.eqb_eq in E1; subst key; discriminate K|].
    destruct (String.eqb "name" key) eqn:E2;
      [apply String.eqb_eq in E2; subst key; discriminate K|].
    destruct (String.eqb "description" key) eqn:E3;
      [apply String.eqb_eq in E3; subst key; discriminate K|].
    reflexivity.
  - rewrite (getMember_sanitize_VObj _ key K).
    rewrite (lookup_assign_other String.eqb string_eqb_spec)
      by (intro Eq; apply R; now rewrite Eq).
    destruct (lookup String.eqb key fields) as [x|] eqn:L.
    + destruct (lookup_NoDup_split key x fields N L) as (l1 & l2 & -> & Last).
      rewrite (written_last String.eqb string_eqb_spec fst snd l1 (key, x) l2 _ Last).
      now apply Kept.
    + rewrite (written_other String.eqb string_eqb_spec fst snd).
      * cbn [lookup Js.getMember].
        destruct (String.eqb "in" key); [reflexivity|].
        destruct (String.eqb "name" key); [reflexivity|].
        destruct (String.eqb "description" key); reflexivity.
      * intros e I Eq.
        apply (lookup_None_keys String.eqb string_eqb_spec key fields L).
        rewrite <- Eq. now apply in_map.
Qed.

End ParameterMembers.

(** X14: a body parameter carries its translated schema whole under
    [schema], beside its place, its name and the empty description. A
    parameter in any other place carries the members of its translated
    schema themselves: every member but [required] is the member of the
    schema when the schema has it (so the type is the type of the schema, and
    a description of the schema replaces the empty one), and the place, the
    name or the empty description otherwise. *)
Theorem route_parameter_members :
  forall {Joi : Type} (JoiToJSONSchema : Joi -> value) describe name
         (paramDef : ParameterDefinition Joi),
    (param_in paramDef = "body" ->
     let param := sanitize (routeParameter JoiToJSONSchema describe name paramDef) in
     Js.getMember param "in" = VStr "body" /\
     Js.getMember param "name" = VStr name /\
     Js.getMember param "description" = VStr "" /\
     Js.getMember param "schema" =
     JoiToSwaggerSchema JoiToJSONSchema (param_def paramDef)) /\
    (forall fields key,
        param_in paramDef <> "body" ->
        JoiToSwaggerSchema JoiToJSONSchema (param_def paramDef) = VObj fields ->
        NoDup (List.map fst fields) ->
        key <> "required" ->
        Js.getMember (sanitize (routeParameter JoiToJSONSchema describe name paramDef))
                     key =
        match lookup String.eqb key fields with
        | Some x => x
        | None =>
            Js.getMember (VObj [ ("in", VStr (param_in paramDef));
                                 ("name", VStr name);
                                 ("description", VStr "") ]) key
        end).
Proof.
  intros Joi J d name paramDef. split.
  - intros B param. subst param. unfold routeParameter. rewrite B.
    cbn [String.eqb Ascii.eqb Bool.eqb]. simpl String.eqb.
    rewrite !getMember_sanitize_VObj by reflexivity.
    repeat split.
    change (sanitizeMember (JoiToSwaggerSchema J (param_def paramDef)) =
            JoiToSwaggerSchema J (param_def paramDef)).
    unfold sanitizeMember, JoiToSwaggerSchema, sanitize, deepOmit.
    fold denylist.
    replace (Js.isObject (omitFromObject denylist (J (param_def paramDef))))
      with true by (now destruct (J (param_def paramDef))).
    apply omitFromObject_idempotent.
  - intros fields key. apply spread_member.
Qed.

(** The [page] parameter of the users route, in the query: its type is
    the type of its schema. *)
Lemma route_parameter_members_witness :
  Js.getMember
    (sanitize (routeParameter Sample.JoiToJSONSchema Sample.describe "page"
                              {| param_in := "query";
                                 param_def := Sample.JoiString true |}))
    "type" = VStr "string".
Proof.
  apply (proj2 (route_parameter_members
                  Sample.JoiToJSONSchema Sample.describe "page"
                  {| param_in := "query"; param_def := Sample.JoiString true |})
               [("type", VStr "string")] "type").
  - discriminate.
  - reflexivity.
  - repeat constructor. intros [].
  - discriminate.
Defined.

(** ** The document: nothing lost, nothing invented *)

Lemma HttpMethod_eq_dec : forall m m' : HttpMethod, {m = m'} + {m <> m'}.
Proof. decide equality. Qed.

Lemma chain_key_eq_dec :
  forall a b : string * HttpMethod, {a = b} + {a <> b}.
Proof.
  intros [p m] [p' m'].
  destruct (string_dec p p') as [->|N]; [|right; congruence].
  destruct (HttpMethod_eq_dec m m') as [->|N]; [now left|right; congruence].
Qed.

Section PresenceFacts.
Context {Joi : Type}.
Variable JoiToJSONSchema : Joi -> value.
Variable describe : Joi -> JoiDescription.
Variable store : ref -> SchemaObject Joi.
Variable info : SwaggerRouteOptions.

#[local] Abbreviation add := (addChain JoiToJSONSchema describe store info).
#[local] Abbreviation addAll := (addChains JoiToJSONSchema describe store info).

Lemma addChain_keeps_present :
  forall paths routes paths' p m,
    add paths routes = Some paths' ->
    findOperation p m paths <> None -> findOperation p m paths' <> None.
Proof.
  intros paths routes paths' p m A Present.
  destruct (addChain_Some JoiToJSONSchema describe store info _ _ _ A)
    as (endRoute & E & _).
  destruct (chain_key_eq_dec
              (p, m) (toSwaggerPath (corgiPathOf routes), route_method endRoute))
    as [Eq|N].
  - inversion Eq; subst.
    rewrite (addChain_find_same JoiToJSONSchema describe store info _ _ _ _ A E).
    discriminate.
  - now rewrite (addChain_find_other JoiToJSONSchema describe store info
                                     _ _ _ _ _ _ A E N).
Qed.

Lemma addChains_keeps_present :
  forall chains paths paths' p m,
    addAll chains paths = Some paths' ->
    findOperation p m paths <> None -> findOperation p m paths' <> None.
Proof.
  induction chains as [|c chains IH]; intros paths paths' p m A Present.
  - rewrite addChains_nil in A. now inversion A; subst.
  - rewrite addChains_cons in A.
    destruct (add paths c) as [paths1|] eqn:A1; [|discriminate].
    apply (IH _ _ _ _ A). now apply (addChain_keeps_present _ _ _ _ _ A1).
Qed.

Lemma addChains_present :
  forall chains paths paths' routes endRoute,
    addAll chains paths = Some paths' ->
    In routes chains -> endRouteOf routes = Some endRoute ->
    findOperation (toSwaggerPath (corgiPathOf routes)) (route_method endRoute) paths'
    <> None.
Proof.
  induction chains as [|c chains IH]; intros paths paths' routes endRoute A I E.
  - contradiction.
  - rewrite addChains_cons in A.
    destruct (add paths c) as [paths1|] eqn:A1; [|discriminate].
    destruct I as [<-|I]; [|now apply (IH paths1)].
    apply (addChains_keeps_present _ _ _ _ _ A).
    rewrite (addChain_find_same JoiToJSONSchema describe store info _ _ _ _ A1 E).
    discriminate.
Qed.

End PresenceFacts.

(** X15: the document holds the operations of the chains and nothing
    else: every entry is the operation built for a chain, under the
    rewritten path and the method key of that chain; and when no rewritten
    path is the name of a member an object literal inherits, every chain
    finds an operation under its rewritten path and method. *)
Theorem document_operations_are_the_chains :
  forall {Joi : Type} JoiToJSONSchema describe store
         (flatten : Routes Joi -> list (Routes Joi)) info request tree doc,
    generateJSON JoiToJSONSchema describe store flatten info request tree = Some doc ->
    (forall p k op,
        In (p, k, op) (operationEntries (Swagger.paths doc)) ->
        exists routes endRoute,
          In routes (flatten tree) /\
          endRouteOf routes = Some endRoute /\
          p = toSwaggerPath (corgiPathOf routes) /\
          k = methodKey (route_method endRoute) /\
          op = operationOf JoiToJSONSchema describe store info routes endRoute) /\
    (forall routes endRoute,
        ownPathNames (flatten tree) = true ->
        In routes (flatten tree) ->
        endRouteOf routes = Some endRoute ->
        findOperation (toSwaggerPath (corgiPathOf routes)) (route_method endRoute)
                      (Swagger.paths doc) <> None).
Proof.
  intros Joi J d store flatten info request tree doc H. split.
  - intros p k op I.
    exact (generateJSON_entries J d store flatten _ _ _ _ _ _ _ H I).
  - intros routes endRoute _ I E.
    destruct (generateJSON_Some J d store flatten _ _ _ _ H) as (context & _ & A & _).
    exact (addChains_present J d store info _ _ _ _ _ A I E).
Qed.

(** The GET route of the users tree is in the document. *)
Lemma document_operations_are_the_chains_witness :
  exists doc,
    generateJSON Sample.JoiToJSONSchema Sample.describe Sample.store flattenRoutes
                 (Sample.options None) Sample.request Sample.usersTree = Some doc /\
    findOperation "/users/{id}/posts" GET (Swagger.paths doc) <> None.
Proof.
  eexists. split; [reflexivity|].
  exact (proj2 (document_operations_are_the_chains
                  Sample.JoiToJSONSchema Sample.describe Sample.store flattenRoutes
                  (Sample.options None) Sample.request Sample.usersTree _ eq_refl)
               [ NodeNamespace "/users/:id" [("id", Sample.JoiString false)]
                   [ NodeRoute Sample.usersRoute;
                     NodeRoute (Sample.route GET "/posts" (Some "listPosts")) ];
                 NodeRoute (Sample.route GET "/posts" (Some "listPosts")) ]
               (Sample.route GET "/posts" (Some "listPosts"))
               eq_refl ltac:(simpl; tauto) eq_refl).
Defined.

(** X16: when several entries of the definitions table hold the same
    object, the reference names the first of them in the order of the
    table. *)
Theorem convertToReference_names_first_entry :
  forall info before name schema after,
    info_definitions info = Some (before ++ (name, schema) :: after)%list ->
    (forall name' def, In (name', def) before -> def <> schema) ->
    convertToReference info schema =
    Some (Swagger.SchemaRef ("#/definitions/" ++ name)).
Proof.
  intros info before name schema after D First.
  unfold convertToReference. rewrite D. clear D.
  induction before as [|[name' def] before IH].
  - simpl. now rewrite Nat.eqb_refl.
  - cbn [app]. destruct (Nat.eqb def schema) eqn:E.
    + apply Nat.eqb_eq in E. exfalso.
      apply (First name' def); [now left|exact E].
    + apply IH. intros n d I. apply (First n d). now right.
Qed.

(** The object at address 0 under two names: the first is taken. *)
Lemma convertToReference_names_first_entry_witness :
  convertToReference
    (Sample.options (Some [("Post", 2); ("User", 0); ("Account", 0)])) 0 =
  Some (Swagger.SchemaRef "#/definitions/User").
Proof.
  apply (convertToReference_names_first_entry
           (Sample.options (Some [("Post", 2); ("User", 0); ("Account", 0)]))
           [("Post", 2)] "User" 0 [("Account", 0)] eq_refl).
  intros name' def [E|[]]. inversion E. discriminate.
Defined.
